(* ===================================================================== *)
(* dashboard.py: toponym resolution (DBpedia lookup + SPARQL geocoding),  *)
(* memoisation with functools.cache, the occurrence table (count_table)   *)
(* and the coordinate list of the main callback (fetch_and_map).          *)
(*                                                                        *)
(* The Python functions are embedded as computations in a state-and-      *)
(* exception monad: the state holds the three functools.cache tables and  *)
(* the log of HTTP requests issued so far; an exception aborts the        *)
(* computation and keeps the state reached.                               *)
(* ===================================================================== *)

From Stdlib Require Import Ascii String.
From stdpp Require Import base option list gmap strings sorting.

Local Open Scope string_scope.

(* --------------------------------------------------------------------- *)
(* Python exceptions that the functions of dashboard.py can raise          *)
(* --------------------------------------------------------------------- *)

(** [RequestException]: requests.get / requests.post / raise_for_status /
    response.json() failed (connection error, HTTP status, bad body).
    [TypeError]: float(None), None[0].  [ValueError]: float("abc").
    [IndexError]: [][0]. *)
Inductive exn := RequestException | TypeError | ValueError | IndexError.

Inductive outcome (A : Type) :=
  | Ret (a : A)
  | Raise (e : exn).
Arguments Ret {A} a.
Arguments Raise {A} e.

Definition outcome_map {A B} (f : A → B) (o : outcome A) : outcome B :=
  match o with
  | Ret a => Ret (f a)
  | Raise e => Raise e
  end.

(* --------------------------------------------------------------------- *)
(* Library interfaces used by the source                                   *)
(* --------------------------------------------------------------------- *)

(** Python's builtin float as the source uses it, on a type [float] of
    floating-point values: [float_of_str s] is float(s) on a str ([None]
    stands for ValueError), [float_bool x] is the truth value of x (False
    exactly when x == 0.0). *)
Class PyFloat (float : Type) := {
  float_of_str : string → option float;
  float_bool : float → bool
}.

(** DataFrame.sort_values(by=['occs'], ascending=False) with the default
    sort kind: the rows come back rearranged with the key descending; the
    relative order of rows with equal keys is whatever the sorting
    algorithm gives. *)
Class SortValues := {
  sort_values_desc : ∀ {A : Type}, (A → nat) → list A → list A;
  sort_values_desc_perm : ∀ (A : Type) (key : A → nat) (l : list A),
    sort_values_desc key l ≡ₚ l;
  sort_values_desc_sorted : ∀ (A : Type) (key : A → nat) (l : list A),
    Sorted (λ a b, (key b ≤ key a)%nat) (sort_values_desc key l)
}.

(* --------------------------------------------------------------------- *)
(* JSON bodies of the two services                                         *)
(* --------------------------------------------------------------------- *)

(** A document of the DBpedia lookup answer: field name -> list of strings. *)
Abbreviation doc := (gmap string (list string)).

(** response.json() of the lookup service; [docs] is absent or a list. *)
Record lookup_json := { docs : option (list doc) }.

(** A binding of the SPARQL answer: variable -> (attribute -> string),
    e.g. {"lat": {"type": "typed-literal", "value": "48.85"}}. *)
Abbreviation binding := (gmap string (gmap string string)).

Record sparql_results := { bindings : option (list binding) }.
Record sparql_json := { results : option sparql_results }.

(* --------------------------------------------------------------------- *)
(* HTTP requests and the network                                           *)
(* --------------------------------------------------------------------- *)

Inductive request :=
  | GET (url : string)
  | POST (url : string) (data : string).

(** The outside world: what a request answers, given the requests issued
    before it in this process.  [None]: the request (or raise_for_status,
    or decoding the body) raises. *)
Record Network := {
  lookup_service : list request → string → option lookup_json;
  sparql_service : list request → string → option sparql_json
}.

Section Dashboard.
Context {float : Type} `{!PyFloat float} `{!SortValues} (net : Network).

(** tuple[float, float] as geocode really returns it: each component is a
    float or None. *)
Definition coord : Type := option float * option float.

(* --------------------------------------------------------------------- *)
(* Process state: the functools.cache tables and the request log            *)
(* --------------------------------------------------------------------- *)

Record state := {
  lookup_cache : gmap string (list doc);
  top1_cache : gmap string (option string);
  geocode_cache : gmap (option string) coord;
  requests : list request
}.

Definition empty_state : state :=
  {| lookup_cache := ∅; top1_cache := ∅; geocode_cache := ∅; requests := [] |}.

Definition M (A : Type) : Type := state → outcome A * state.

Definition ret {A} (a : A) : M A := λ s, (Ret a, s).
Definition raise {A} (e : exn) : M A := λ s, (Raise e, s).
Definition bind {A B} (m : M A) (k : A → M B) : M B :=
  λ s, match m s with
       | (Ret a, s') => k a s'
       | (Raise e, s') => (Raise e, s')
       end.

Notation "x <- c1 ;; c2" := (bind c1 (λ x, c2))
  (at level 100, c1 at next level, right associativity).

(** A list comprehension [f(x) for x in l]: left to right, the first
    exception aborts it. *)
Fixpoint mapM {A B} (f : A → M B) (l : list A) : M (list B) :=
  match l with
  | [] => ret []
  | x :: l' => y <- f x ;; ys <- mapM f l' ;; ret (y :: ys)
  end.

(* --------------------------------------------------------------------- *)
(* functools.cache                                                          *)
(* --------------------------------------------------------------------- *)

(** @cache: a hit returns the stored value and runs nothing; a miss runs
    the function and stores its value; an exception is not stored. *)
Definition cache {K V} `{Countable K}
    (table : state → gmap K V) (store : K → V → state → state)
    (f : K → M V) (k : K) : M V :=
  λ s, match table s !! k with
       | Some v => (Ret v, s)
       | None =>
           match f k s with
           | (Ret v, s') => (Ret v, store k v s')
           | (Raise e, s') => (Raise e, s')
           end
       end.

Definition store_lookup (k : string) (v : list doc) (s : state) : state :=
  {| lookup_cache := <[k:=v]> (lookup_cache s); top1_cache := top1_cache s;
     geocode_cache := geocode_cache s; requests := requests s |}.

Definition store_top1 (k : string) (v : option string) (s : state) : state :=
  {| lookup_cache := lookup_cache s; top1_cache := <[k:=v]> (top1_cache s);
     geocode_cache := geocode_cache s; requests := requests s |}.

Definition store_geocode (k : option string) (v : coord) (s : state) : state :=
  {| lookup_cache := lookup_cache s; top1_cache := top1_cache s;
     geocode_cache := <[k:=v]> (geocode_cache s); requests := requests s |}.

Definition log_request (r : request) (s : state) : state :=
  {| lookup_cache := lookup_cache s; top1_cache := top1_cache s;
     geocode_cache := geocode_cache s; requests := requests s ++ [r] |}.

(** [s'] is a later state of the process than [s]: the caches have kept
    their entries and the log its requests. *)
Definition extends (s s' : state) : Prop :=
  lookup_cache s ⊆ lookup_cache s'
  ∧ top1_cache s ⊆ top1_cache s'
  ∧ geocode_cache s ⊆ geocode_cache s'
  ∧ requests s `prefix_of` requests s'.

(* --------------------------------------------------------------------- *)
(* dbpedia_lookup, dbpedia_top1                                             *)
(* --------------------------------------------------------------------- *)

(** requests.get(query); response.raise_for_status(); response.json() *)
Definition http_get_json (url : string) : M lookup_json :=
  λ s, match lookup_service net (requests s) url with
       | Some j => (Ret j, log_request (GET url) s)
       | None => (Raise RequestException, log_request (GET url) s)
       end.

Definition lookup_url (toponyme : string) : string :=
  "https://fr.dbpedia.org/lookup/api/search?query=" +:+ toponyme +:+ "&format=JSON".

Definition dbpedia_lookup_body (toponyme : string) : M (list doc) :=
  j <- http_get_json (lookup_url toponyme) ;;
  ret (default [] (docs j)).

Definition dbpedia_lookup : string → M (list doc) :=
  cache lookup_cache store_lookup dbpedia_lookup_body.

(** r[0].get("resource")[0]: the field may be missing (None[0]) and its
    list may be empty ([][0]). *)
Definition dbpedia_top1_body (toponyme : string) : M (option string) :=
  r <- dbpedia_lookup toponyme ;;
  match r with
  | [] => ret None
  | d :: _ =>
      match d !! "resource" with
      | None => raise TypeError
      | Some [] => raise IndexError
      | Some (u :: _) => ret (Some u)
      end
  end.

Definition dbpedia_top1 : string → M (option string) :=
  cache top1_cache store_top1 dbpedia_top1_body.

(* --------------------------------------------------------------------- *)
(* geocode                                                                  *)
(* --------------------------------------------------------------------- *)

(** str(x) for the argument of geocode: a str, or None when count_table
    passes dbpedia_top1's None on. *)
Definition py_str (uri : option string) : string := default "None" uri.

Definition sparql_query (uri : option string) : string :=
  "PREFIX geo: <http://www.w3.org/2003/01/geo/wgs84_pos#> SELECT ?lat ?long WHERE {<"
  +:+ py_str uri +:+ "> (geo:lat) ?lat ; (geo:long) ?long. }".

Definition sparql_url : string := "http://fr.dbpedia.org/sparql".

(** requests.post(...); response.raise_for_status(); response.json() *)
Definition http_post_json (url data : string) : M sparql_json :=
  λ s, match sparql_service net (requests s) data with
       | Some j => (Ret j, log_request (POST url data) s)
       | None => (Raise RequestException, log_request (POST url data) s)
       end.

(** float(x) where x is a str or None. *)
Definition py_float (x : option string) : M float :=
  match x with
  | None => raise TypeError
  | Some s =>
      match float_of_str s with
      | Some f => ret f
      | None => raise ValueError
      end
  end.

(** [x or None] for a float x. *)
Definition or_None (x : float) : option float :=
  if float_bool x then Some x else None.

(** json_response.get("results", {}).get("bindings", []) *)
Definition get_bindings (j : sparql_json) : list binding :=
  match results j with
  | None => []
  | Some r => default [] (bindings r)
  end.

(** b.get(var, {}).get("value", None) *)
Definition get_value (b : binding) (var : string) : option string :=
  default ∅ (b !! var) !! "value".

Definition geocode_body (uri : option string) : M coord :=
  json_response <- http_post_json sparql_url (sparql_query uri) ;;
  match get_bindings json_response with
  | [] => ret (None, None)
  | b :: _ =>
      let lat := get_value b "lat" in
      let long := get_value b "long" in
      lat <- py_float lat ;;
      long <- py_float long ;;
      ret (or_None lat, or_None long)
  end.

Definition geocode : option string → M coord :=
  cache geocode_cache store_geocode geocode_body.

(* --------------------------------------------------------------------- *)
(* resolution                                                               *)
(* --------------------------------------------------------------------- *)

(** Truth value of a [str | None]: None and the empty string are falsy. *)
Definition str_bool (uri : option string) : bool :=
  match uri with
  | None => false
  | Some u => negb (String.eqb u EmptyString)
  end.

(** The two print calls only write the trace to stdout. *)
Definition resolution (toponyme : string) : M coord :=
  uri <- dbpedia_top1 toponyme ;;
  if negb (str_bool uri) then ret (None, None) else geocode uri.

(* --------------------------------------------------------------------- *)
(* count_table                                                              *)
(* --------------------------------------------------------------------- *)

(** Counter(loc) as a dict: one entry per distinct string, in the order of
    first occurrence, with the number of occurrences. *)
Fixpoint counter_add (k : string) (c : list (string * nat)) : list (string * nat) :=
  match c with
  | [] => [(k, 1)]
  | (k', n) :: c' =>
      if decide (k = k') then (k', S n) :: c' else (k', n) :: counter_add k c'
  end.

Definition Counter (loc : list string) : list (string * nat) :=
  foldl (λ c k, counter_add k c) [] loc.

(** A row of the DataFrame: the index (the toponym) and the three columns. *)
Record row := {
  index : string;
  occs : nat;
  db_pedia : option string;
  coordinates : coord
}.

(** loc_dict[k] = [loc_dict[k], dbpedia_top1(k), geocode(dbpedia_top1(k))] *)
Definition count_table_entry (kv : string * nat) : M row :=
  u1 <- dbpedia_top1 (fst kv) ;;
  u2 <- dbpedia_top1 (fst kv) ;;
  c <- geocode u2 ;;
  ret {| index := fst kv; occs := snd kv; db_pedia := u1; coordinates := c |}.

(** The cells of a row as pandas stores them: an integer, an object that
    is a str or None, and an object that is a tuple. *)
Inductive cell :=
  | IntCell (n : nat)
  | StrCell (o : option string)
  | TupleCell (c : coord).

(** pandas isna on a cell: None is missing; an integer is not, and a tuple
    is not, whatever its components are. *)
Definition isna (c : cell) : bool :=
  match c with
  | StrCell None => true
  | _ => false
  end.

Definition cells (r : row) : list cell :=
  [IntCell (occs r); StrCell (db_pedia r); TupleCell (coordinates r)].

(** df.dropna(how='any', axis=0): drop the rows with a missing cell. *)
Definition dropna (df : list row) : list row :=
  List.filter (λ r, negb (existsb isna (cells r))) df.

Definition count_table (loc : list string) : M (list row) :=
  loc_dict <- mapM count_table_entry (Counter loc) ;;
  let df := loc_dict in
  let df := dropna df in
  let df := sort_values_desc occs df in
  ret df.

(* --------------------------------------------------------------------- *)
(* fetch_and_map, from the LOC entities on                                  *)
(* --------------------------------------------------------------------- *)

(** Truth value of a component of a coordinate: None is falsy, a float is
    falsy when it is zero. *)
Definition opt_float_bool (x : option float) : bool :=
  match x with
  | None => false
  | Some f => float_bool f
  end.

(** [(lat, long) for lat, long in coordonnees if lat and long] *)
Definition coordonnees_valides (coordonnees : list coord) : list coord :=
  List.filter (λ c, opt_float_bool (fst c) && opt_float_bool (snd c)) coordonnees.


(** fetch_and_map between the entity extraction ([loc] is the text of the
    LOC entities of the page, in order) and the rendering: the coordinates
    given to the heat map and the DataFrame given to the table. *)
Definition fetch_and_map (loc : list string) : M (list coord * list row) :=
  coordonnees <- mapM resolution loc ;;
  let valides := coordonnees_valides coordonnees in
  df <- count_table loc ;;
  ret (valides, df).

End Dashboard.

Notation "x <- c1 ;; c2" := (bind c1 (λ x, c2))
  (at level 100, c1 at next level, right associativity).

Arguments state {_}.
Arguments row {_}.
Arguments cell {_}.

(* --------------------------------------------------------------------- *)
(* Instances of the library interfaces, to run the functions               *)
(* --------------------------------------------------------------------- *)

(** A decimal number m / 10^scale. *)
Record decimal := { dec_mant : Z; dec_scale : nat }.

Definition digit_of (a : ascii) : option Z :=
  let n := Z.of_N (N_of_ascii a) in
  if ((48 <=? n) && (n <=? 57))%Z then Some (n - 48)%Z else None.

(** Reads the leading digits of [s]: the number read (continuing [acc]),
    how many digits there were, and the rest of the string. *)
Fixpoint read_digits (s : string) (acc : Z) (cnt : nat) : Z * nat * string :=
  match s with
  | String a s' =>
      match digit_of a with
      | Some d => read_digits s' (10 * acc + d)%Z (S cnt)
      | None => (acc, cnt, s)
      end
  | EmptyString => (acc, cnt, s)
  end.

Definition read_sign (s : string) : bool * string :=
  match s with
  | String "-"%char s' => (true, s')
  | String "+"%char s' => (false, s')
  | _ => (false, s)
  end.

(** float(s) on the plain decimal literals: an optional sign, digits, and
    an optional point followed by digits, with a digit on at least one
    side of the point; anything else is refused. *)
Definition decimal_of_str (s : string) : option decimal :=
  let '(neg, s1) := read_sign s in
  let '(i, ni, s2) := read_digits s1 0%Z 0 in
  let signed (m : Z) := if neg then (- m)%Z else m in
  match s2 with
  | EmptyString =>
      if Nat.eqb ni 0 then None else Some {| dec_mant := signed i; dec_scale := 0 |}
  | String "."%char s3 =>
      let '(m, nf, s4) := read_digits s3 i 0 in
      match s4 with
      | EmptyString =>
          if Nat.eqb (ni + nf) 0 then None
          else Some {| dec_mant := signed m; dec_scale := nf |}
      | _ => None
      end
  | _ => None
  end.

(** Floats read from plain decimal literals, kept exact.  The instance is
    for short literals as DBpedia gives them for geo:lat and geo:long;
    Python's float also reads exponents, inf, nan, underscores and
    surrounding blanks, and rounds what it reads. *)
Definition decimal_float : PyFloat decimal :=
  {| float_of_str := decimal_of_str;
     float_bool := λ x, negb (Z.eqb (dec_mant x) 0) |}.

(** The descending order of the key that sort_values produces. *)
Definition key_ge {A} (key : A → nat) : relation A := λ a b, (key b ≤ key a)%nat.

#[local] Instance key_ge_dec {A} (key : A → nat) : RelDecision (key_ge key).
Proof. intros a b. unfold key_ge. apply _. Defined.

#[local] Instance key_ge_total {A} (key : A → nat) : Total (key_ge key).
Proof. intros a b. unfold key_ge. lia. Qed.

(** An instance of the interface, by a merge sort.  It is one way of
    ordering the rows with equal keys; sort_values with its default kind
    may order them another way. *)
Definition merge_sort_values : SortValues :=
  {| sort_values_desc := λ A key, merge_sort (key_ge key);
     sort_values_desc_perm := λ A key l, merge_sort_Permutation (key_ge key) l;
     sort_values_desc_sorted := λ A key l, Sorted_merge_sort (key_ge key) l |}.

(** Bodies of the services. *)
Definition docs_of (uris : list string) : lookup_json :=
  {| docs := Some ((λ u, {[ "resource" := [u]; "label" := ["x"] ]}) <$> uris) |}.

Definition literal (v : string) : gmap string string :=
  {[ "type" := "typed-literal"; "value" := v ]}.

Definition bindings_of (bs : list binding) : sparql_json :=
  {| results := Some {| bindings := Some bs |} |}.

Definition lat_long (lat long : string) : binding :=
  {[ "lat" := literal lat; "long" := literal long ]}.

Definition uri_Paris : string := "http://fr.dbpedia.org/resource/Paris".
Definition uri_Lyon : string := "http://fr.dbpedia.org/resource/Lyon".
Definition uri_Null_Island : string := "http://fr.dbpedia.org/resource/Null_Island".

Definition empty0 : @state decimal := @empty_state decimal.

(** Paris and Lyon are known and located; every other toponym is unknown
    to the lookup service, and other resources have no coordinates. *)
Definition net_Paris_Lyon : Network :=
  {| lookup_service := λ _ url,
       if String.eqb url (lookup_url "Paris") then Some (docs_of [uri_Paris; uri_Lyon])
       else if String.eqb url (lookup_url "Lyon") then Some (docs_of [uri_Lyon])
       else Some (docs_of []);
     sparql_service := λ _ q,
       if String.eqb q (sparql_query (Some uri_Paris))
       then Some (bindings_of [lat_long "48.856578" "2.351828"])
       else if String.eqb q (sparql_query (Some uri_Lyon))
       then Some (bindings_of [lat_long "45.758888" "4.841389"])
       else Some (bindings_of []) |}.

(** "Null Island" is known, and its coordinates are 0.0 and 0.0. *)
Definition net_Null_Island : Network :=
  {| lookup_service := λ _ _, Some (docs_of [uri_Null_Island]);
     sparql_service := λ _ _, Some (bindings_of [lat_long "0.0" "0.0"]) |}.

(** As [net_Paris_Lyon], but the SPARQL request about Lyon fails. *)
Definition net_Lyon_down : Network :=
  {| lookup_service := lookup_service net_Paris_Lyon;
     sparql_service := λ h q,
       if String.eqb q (sparql_query (Some uri_Lyon)) then None
       else sparql_service net_Paris_Lyon h q |}.

(** Every toponym is known as Paris, and no resource has coordinates. *)
Definition net_no_coordinates : Network :=
  {| lookup_service := λ _ _, Some (docs_of [uri_Paris]);
     sparql_service := λ _ _, Some (bindings_of []) |}.

(** No toponym is known, and the SPARQL endpoint is down. *)
Definition net_sparql_down : Network :=
  {| lookup_service := λ _ _, Some (docs_of []);
     sparql_service := λ _ _, None |}.

(** Every resource has a latitude and no longitude. *)
Definition net_lat_only : Network :=
  {| lookup_service := λ _ _, Some (docs_of [uri_Paris]);
     sparql_service := λ _ _, Some (bindings_of [{[ "lat" := literal "48.856578" ]}]) |}.

(** The first document of every lookup has the empty string as resource,
    and every SPARQL query is answered with the coordinates of Paris. *)
Definition net_empty_resource : Network :=
  {| lookup_service := λ _ _, Some (docs_of [EmptyString; uri_Paris]);
     sparql_service := λ _ _, Some (bindings_of [lat_long "48.856578" "2.351828"]) |}.

(** The lookup service is down. *)
Definition net_lookup_down : Network :=
  {| lookup_service := λ _ _, None;
     sparql_service := λ _ _, Some (bindings_of []) |}.

(** The latitude of every resource is not a number. *)
Definition net_malformed : Network :=
  {| lookup_service := λ _ _, Some (docs_of [uri_Paris]);
     sparql_service := λ _ _, Some (bindings_of [lat_long "n/a" "2.351828"]) |}.

(** The documents of the lookup service have a label and no resource. *)
Definition net_no_resource : Network :=
  {| lookup_service := λ _ _, Some {| docs := Some [ {[ "label" := ["Paris"] ]} ] |};
     sparql_service := λ _ _, Some (bindings_of []) |}.

(** The coordinates and the rows that these services give. *)
Definition lat_Paris : decimal := {| dec_mant := 48856578; dec_scale := 6 |}.
Definition long_Paris : decimal := {| dec_mant := 2351828; dec_scale := 6 |}.
Definition lat_Lyon : decimal := {| dec_mant := 45758888; dec_scale := 6 |}.
Definition long_Lyon : decimal := {| dec_mant := 4841389; dec_scale := 6 |}.

Definition row_Paris : row :=
  {| index := "Paris"; occs := 3; db_pedia := Some uri_Paris;
     coordinates := (Some lat_Paris, Some long_Paris) |}.

Definition row_Lyon : row :=
  {| index := "Lyon"; occs := 2; db_pedia := Some uri_Lyon;
     coordinates := (Some lat_Lyon, Some long_Lyon) |}.

(** The state after running a computation. *)
Definition state_after {float A} (m : @M float A) (s : @state float) : @state float := snd (m s).

(* --------------------------------------------------------------------- *)
(* Measures and invariants of the process state                             *)
(* --------------------------------------------------------------------- *)

(** loc.count(k): how many occurrences of [k] the list has. *)
Definition occurrences (k : string) (loc : list string) : nat :=
  length (filter (λ x, x = k) loc).

(** The count that a Counter dict holds for [k] (0 when [k] is no key). *)
Fixpoint counter_get (k : string) (c : list (string * nat)) : nat :=
  match c with
  | [] => 0
  | (k', n) :: c' => if decide (k = k') then n else counter_get k c'
  end.

(** How many requests were issued between the state [s] and the later
    state [s']. *)
Definition requests_between {float} (s s' : @state float) : nat :=
  length (requests s') - length (requests s).

Section Invariants.
Context {float : Type} `{!PyFloat float}.

(** A component of a coordinate as [x or None] leaves it: None, or a
    float that is not zero. *)
Definition nonzero_component (x : option float) : Prop :=
  ∀ f, x = Some f → float_bool f = true.

Definition nonzero_coord (c : coord) : Prop :=
  nonzero_component (fst c) ∧ nonzero_component (snd c).

(** Every coordinate in geocode's cache is made of such components. *)
Definition geocode_cache_nonzero (s : @state float) : Prop :=
  ∀ uri c, geocode_cache s !! uri = Some c → nonzero_coord c.

(** The reference that dbpedia_top1 draws from a lookup result, when it
    does not raise. *)
Definition top1_of (r : list doc) : option (option string) :=
  match r with
  | [] => Some None
  | d :: _ =>
      match d !! "resource" with
      | Some (u :: _) => Some (Some u)
      | _ => None
      end
  end.

(** dbpedia_top1's cache holds nothing but what the cached lookup results
    give. *)
Definition top1_cache_coherent (s : @state float) : Prop :=
  ∀ toponyme u, top1_cache s !! toponyme = Some u →
    ∃ r, lookup_cache s !! toponyme = Some r ∧ top1_of r = Some u.

End Invariants.

(* --------------------------------------------------------------------- *)
(* fetch_gallica and the entity filter                                      *)
(* --------------------------------------------------------------------- *)

(** s.endswith(suffix): some tail of [s] is [suffix]. *)
Fixpoint endswith (s suffix : string) : bool :=
  String.eqb s suffix
  || match s with
     | EmptyString => false
     | String _ s' => endswith s' suffix
     end.

(** The url that fetch_gallica requests:
    if not url.endswith(".texteBrut"): url += ".texteBrut" *)
Definition texteBrut_url (url : string) : string :=
  if endswith url ".texteBrut" then url else url +:+ ".texteBrut".

(** A tag of the parsed page, with its name and its text (tag.text). *)
Record tag := { tag_name : string; tag_text : string }.

(** The parsed page as the function walks it: its tags in document order
    (the order of content.select and of tag.find_all_next). *)
Abbreviation soup := (list tag).

(** The tags that come after the first tag called [name], or None when
    the page has no such tag: content.select(name)[0].find_all_next(). *)
Fixpoint next_after_first (name : string) (content : soup) : option soup :=
  match content with
  | [] => None
  | t :: rest =>
      if String.eqb (tag_name t) name then Some rest
      else next_after_first name rest
  end.

Definition newline : string := String (ascii_of_nat 10) EmptyString.

(** text = ''; for p in first_hr_tag.find_all_next('p'): text += p.text + '\n' *)
Definition paragraphs_text (next : soup) : string :=
  foldl (λ text p, text +:+ (tag_text p +:+ newline)) EmptyString
    (List.filter (λ t, String.eqb (tag_name t) "p") next).

(** The part of fetch_gallica after the page is parsed: the text of the
    paragraphs after the first <hr>; select('hr')[0] raises IndexError
    when the page has no <hr>. *)
Definition gallica_text (content : soup) : outcome string :=
  match next_after_first "hr" content with
  | None => Raise IndexError
  | Some next => Ret (paragraphs_text next)
  end.

(** An entity of the spaCy document: its text and its label. *)
Record ent := { ent_text : string; label_ : string }.

(** [ent.text for ent in doc.ents if ent.label_ == "LOC"] *)
Definition loc_of_ents (ents : list ent) : list string :=
  ent_text <$> List.filter (λ e, String.eqb (label_ e) "LOC") ents.

Section Gallica.
Context {float : Type} `{!PyFloat float}.

(** The body of fetch_gallica (without the lru_cache around it):
    [page_service] is what the GET of a url answers, already parsed by
    BeautifulSoup, or None when the request or raise_for_status raises. *)
Definition fetch_gallica_body
    (page_service : list request → string → option soup) (url : string)
    : M (float := float) string :=
  λ s, let url := texteBrut_url url in
       let s' := log_request (GET url) s in
       match page_service (requests s) url with
       | None => (Raise RequestException, s')
       | Some content => (gallica_text content, s')
       end.

(** The process with the cache of fetch_gallica: the urls it holds with
    the text returned for them, the most recently used first. *)
Record gallica_state := {
  gallica_cache : list (string * string);
  process : state (float := float)
}.

(** The text cached for a url. *)
Fixpoint lru_get (url : string) (c : list (string * string)) : option string :=
  match c with
  | [] => None
  | (url', text) :: c' => if decide (url = url') then Some text else lru_get url c'
  end.

Definition lru_remove (url : string) (c : list (string * string)) : list (string * string) :=
  List.filter (λ kv, negb (String.eqb (fst kv) url)) c.

(** @lru_cache without arguments: maxsize=128. *)
Definition maxsize : nat := 128.

(** @lru_cache: a hit returns the stored text and makes its entry the
    most recently used; a miss runs the function and, when it returns,
    stores the text as most recently used, dropping the least recently
    used entry when the cache is full; an exception is not stored. *)
Definition lru_cache (f : string → M string) (url : string)
    : gallica_state → outcome string * gallica_state :=
  λ g, match lru_get url (gallica_cache g) with
       | Some text =>
           (Ret text,
            {| gallica_cache := (url, text) :: lru_remove url (gallica_cache g);
               process := process g |})
       | None =>
           match f url (process g) with
           | (Ret text, s') =>
               (Ret text,
                {| gallica_cache := take maxsize ((url, text) :: gallica_cache g);
                   process := s' |})
           | (Raise e, s') =>
               (Raise e, {| gallica_cache := gallica_cache g; process := s' |})
           end
       end.

Definition fetch_gallica (page_service : list request → string → option soup)
    : string → gallica_state → outcome string * gallica_state :=
  lru_cache (fetch_gallica_body page_service).

End Gallica.

(* --------------------------------------------------------------------- *)
(* More concrete answers, pages and documents                               *)
(* --------------------------------------------------------------------- *)

(** The answers of both services lack their top key. *)
Definition net_no_keys : Network :=
  {| lookup_service := λ _ _, Some {| docs := None |};
     sparql_service := λ _ _, Some {| results := None |} |}.

(** A page of Gallica: a header, the rule, and two paragraphs around a
    page number. *)
Definition page_header : soup :=
  [ {| tag_name := "title"; tag_text := "Gallica" |};
    {| tag_name := "p"; tag_text := "Rappel de votre demande" |} ].

Definition page_rule : tag := {| tag_name := "hr"; tag_text := EmptyString |}.

Definition page_body : soup :=
  [ {| tag_name := "p"; tag_text := "De Paris" |};
    {| tag_name := "span"; tag_text := "12" |};
    {| tag_name := "p"; tag_text := "a Lyon" |} ].

(** A document with a person and no location. *)
Definition ents_no_location : list ent :=
  [ {| ent_text := "Victor Hugo"; label_ := "PER" |} ].

(** Every url answers with the page above. *)
Definition page_service_Gallica : list request → string → option soup :=
  λ _ _, Some (page_header ++ page_rule :: page_body)%list.

Definition gallica0 : @gallica_state decimal :=
  {| gallica_cache := []; process := empty_state |}.

Definition url_Gallica : string := "https://gallica.bnf.fr/ark:/12148/bpt6k661732w/f1".

Definition occurrences_Paris_Lyon : list string :=
  ["Paris"; "Paris"; "Lyon"; "Paris"; "Lyon"].

Definition coord_Paris : @coord decimal := (Some lat_Paris, Some long_Paris).
Definition coord_Lyon : @coord decimal := (Some lat_Lyon, Some long_Lyon).

(* ===================================================================== *)
(* Properties                                                              *)
(* ===================================================================== *)

Section Properties.
Context {float : Type} `{!PyFloat float} `{!SortValues} (net : Network).

Implicit Types (s : @state float) (toponyme : string) (uri : option string).

(* --------------------------------------------------------------------- *)
(* The monad and functools.cache                                           *)
(* --------------------------------------------------------------------- *)

Lemma bind_Ret {A B} (m : M A) (k : A → M B) s a s' :
  m s = (Ret a, s') → bind m k s = k a s'.
Proof. intros Hm. unfold bind. by rewrite Hm. Qed.

Lemma bind_Raise {A B} (m : M A) (k : A → M B) s e s' :
  m s = (Raise e, s') → bind m k s = (Raise e, s').
Proof. intros Hm. unfold bind. by rewrite Hm. Qed.

(** A run is determined by its outcome and the state it reaches. *)
Lemma run_eq {A} (m : M A) s o : fst (m s) = o → m s = (o, state_after m s).
Proof. intros <-. unfold state_after. by destruct (m s). Qed.

Lemma cache_hit {K V} `{Countable K} (table : state → gmap K V) store f k v s :
  table s !! k = Some v → cache table store f k s = (Ret v, s).
Proof. intros Hk. unfold cache. by rewrite Hk. Qed.

Lemma cache_miss_Ret {K V} `{Countable K} (table : state → gmap K V) store f k v s s' :
  table s !! k = None → f k s = (Ret v, s') →
  cache table store f k s = (Ret v, store k v s').
Proof. intros Hk Hf. unfold cache. by rewrite Hk, Hf. Qed.

Lemma cache_miss_Raise {K V} `{Countable K} (table : state → gmap K V) store f k e s s' :
  table s !! k = None → f k s = (Raise e, s') →
  cache table store f k s = (Raise e, s').
Proof. intros Hk Hf. unfold cache. by rewrite Hk, Hf. Qed.

(** A value returned by a cached function is in its table afterwards. *)
Lemma cache_Ret_stored {K V} `{Countable K} (table : state → gmap K V) store f k v s s' :
  (∀ k' v' s0, table (store k' v' s0) !! k' = Some v') →
  cache table store f k s = (Ret v, s') → table s' !! k = Some v.
Proof.
  intros Hstore. unfold cache.
  destruct (table s !! k) as [v0|] eqn:Hk.
  - intros [= <- <-]. done.
  - destruct (f k s) as [[v1|e] s1]; intros [= <- <-]. apply Hstore.
Qed.

Lemma mapM_Raise_at {A B} (f : A → M B) pre x post s ys s1 e s2 :
  mapM f pre s = (Ret ys, s1) → f x s1 = (Raise e, s2) →
  mapM f (pre ++ x :: post)%list s = (Raise e, s2).
Proof.
  revert s ys. induction pre as [|p pre IH]; intros s ys.
  - intros [= <- <-] Hx. cbn. by rewrite (bind_Raise _ _ _ _ _ Hx).
  - cbn. unfold bind at 1. destruct (f p s) as [[y|e'] s'] eqn:Hp; [|done].
    unfold bind at 1. destruct (mapM f pre s') as [[ys'|e'] s''] eqn:Hpre; [|done].
    intros [= <- <-] Hx. unfold bind at 1. rewrite Hp.
    by rewrite (bind_Raise _ _ _ _ _ (IH _ _ Hpre Hx)).
Qed.

(* --------------------------------------------------------------------- *)
(* Later states                                                            *)
(* --------------------------------------------------------------------- *)

Lemma extends_refl s : extends s s.
Proof. by repeat split. Qed.

Lemma extends_trans s1 s2 s3 : extends s1 s2 → extends s2 s3 → extends s1 s3.
Proof.
  intros (?&?&?&?) (?&?&?&?). repeat split; by etrans.
Qed.

Lemma extends_log_request r s : extends s (log_request r s).
Proof. repeat split; cbn; try done. by apply prefix_app_r. Qed.

Lemma extends_store_lookup k v s :
  lookup_cache s !! k = None → extends s (store_lookup k v s).
Proof. intros Hk. repeat split; cbn; try done. by apply insert_subseteq. Qed.

Lemma extends_store_top1 k v s :
  top1_cache s !! k = None → extends s (store_top1 k v s).
Proof. intros Hk. repeat split; cbn; try done. by apply insert_subseteq. Qed.

Lemma extends_store_geocode k v s :
  geocode_cache s !! k = None → extends s (store_geocode k v s).
Proof. intros Hk. repeat split; cbn; try done. by apply insert_subseteq. Qed.

(** A cached function reaches a later state when its body does and the
    body leaves the function's own table alone. *)
Lemma cache_extends {K V} `{Countable K} (table : state → gmap K V) store f k s o s' :
  (∀ o1 s1, f k s = (o1, s1) → extends s s1 ∧ table s1 = table s) →
  (∀ v s1, table s1 !! k = None → extends s1 (store k v s1)) →
  cache table store f k s = (o, s') → extends s s'.
Proof.
  intros Hf Hstore. unfold cache.
  destruct (table s !! k) as [v0|] eqn:Hk.
  - intros [= <- <-]. apply extends_refl.
  - destruct (f k s) as [[v1|e] s1] eqn:Hfk; intros [= <- <-];
      destruct (Hf _ _ eq_refl) as [Hext Htab]; [|done].
    eapply extends_trans; [done|]. apply Hstore. by rewrite Htab.
Qed.

Lemma cache_table_other {K V} `{Countable K} {T}
    (table : state → gmap K V) (other : state → T) store f k s o s' :
  (∀ o1 s1, f k s = (o1, s1) → other s1 = other s) →
  (∀ k' v s1, other (store k' v s1) = other s1) →
  cache table store f k s = (o, s') → other s' = other s.
Proof.
  intros Hf Hstore. unfold cache.
  destruct (table s !! k) as [v0|].
  - by intros [= <- <-].
  - destruct (f k s) as [[v1|e] s1] eqn:Hfk; intros [= <- <-].
    + rewrite Hstore. eauto.
    + eauto.
Qed.

Lemma dbpedia_lookup_body_spec toponyme s :
  dbpedia_lookup_body net toponyme s =
    match lookup_service net (requests s) (lookup_url toponyme) with
    | Some j => (Ret (default [] (docs j)), log_request (GET (lookup_url toponyme)) s)
    | None => (Raise RequestException, log_request (GET (lookup_url toponyme)) s)
    end.
Proof.
  unfold dbpedia_lookup_body, bind, http_get_json.
  by destruct (lookup_service net (requests s) (lookup_url toponyme)).
Qed.

Lemma dbpedia_lookup_extends toponyme s o s' :
  dbpedia_lookup net toponyme s = (o, s') → extends s s'.
Proof.
  apply cache_extends.
  - intros o1 s1. rewrite dbpedia_lookup_body_spec.
    destruct (lookup_service _ _ _); intros [= <- <-];
      (split; [apply extends_log_request|done]).
  - intros. by apply extends_store_lookup.
Qed.

Lemma dbpedia_lookup_top1_cache toponyme s o s' :
  dbpedia_lookup net toponyme s = (o, s') → top1_cache s' = top1_cache s.
Proof.
  apply (cache_table_other lookup_cache top1_cache).
  - intros o1 s1. rewrite dbpedia_lookup_body_spec.
    by destruct (lookup_service _ _ _); intros [= <- <-].
  - done.
Qed.

Lemma dbpedia_top1_extends toponyme s o s' :
  dbpedia_top1 net toponyme s = (o, s') → extends s s'.
Proof.
  apply cache_extends.
  - intros o1 s1. unfold dbpedia_top1_body, bind.
    destruct (dbpedia_lookup net toponyme s) as [[r|e] s2] eqn:Hl.
    + pose proof (dbpedia_lookup_extends _ _ _ _ Hl).
      pose proof (dbpedia_lookup_top1_cache _ _ _ _ Hl).
      destruct r as [|d r]; [by intros [= <- <-]|].
      destruct (d !! "resource") as [[|u us]|]; by intros [= <- <-].
    + pose proof (dbpedia_lookup_extends _ _ _ _ Hl).
      pose proof (dbpedia_lookup_top1_cache _ _ _ _ Hl).
      by intros [= <- <-].
  - intros. by apply extends_store_top1.
Qed.

Lemma geocode_body_extends uri s o s' :
  geocode_body net uri s = (o, s') →
  extends s s' ∧ geocode_cache s' = geocode_cache s.
Proof.
  unfold geocode_body, bind, http_post_json.
  destruct (sparql_service _ _ _) as [j|].
  - destruct (get_bindings j) as [|b bs].
    + intros [= <- <-]. split; [apply extends_log_request|done].
    + unfold py_float, raise, ret.
      destruct (get_value b "lat") as [sl|];
        [destruct (float_of_str sl)|];
        (destruct (get_value b "long") as [so|];
          [destruct (float_of_str so)|]);
        intros [= <- <-]; (split; [apply extends_log_request|done]).
  - intros [= <- <-]. split; [apply extends_log_request|done].
Qed.

Lemma geocode_extends uri s o s' :
  geocode net uri s = (o, s') → extends s s'.
Proof.
  apply cache_extends.
  - intros o1 s1 Hb. exact (geocode_body_extends _ _ _ _ Hb).
  - intros. by apply extends_store_geocode.
Qed.

Lemma bind_extends {A B} (m : M A) (k : A → M B) s o s' :
  (∀ o1 s1, m s = (o1, s1) → extends s s1) →
  (∀ a s1 o2 s2, k a s1 = (o2, s2) → extends s1 s2) →
  bind m k s = (o, s') → extends s s'.
Proof.
  intros Hm Hk. unfold bind. destruct (m s) as [[a|e] s1] eqn:Hms.
  - intros Hka. eapply extends_trans; eauto.
  - intros [= <- <-]. eauto.
Qed.

Lemma mapM_extends {A B} (f : A → M B) l :
  (∀ x s o s', f x s = (o, s') → extends s s') →
  ∀ s o s', mapM f l s = (o, s') → extends s s'.
Proof.
  intros Hf. induction l as [|x l IH]; intros s o s'.
  - intros [= <- <-]. apply extends_refl.
  - cbn. apply bind_extends; [by eauto|].
    intros y s1 o2 s2. apply bind_extends; [by eauto|].
    intros ys s3 o3 s4 [= <- <-]. apply extends_refl.
Qed.

Lemma resolution_extends toponyme s o s' :
  resolution net toponyme s = (o, s') → extends s s'.
Proof.
  unfold resolution. apply bind_extends.
  - intros ??. apply dbpedia_top1_extends.
  - intros u s1 o2 s2. destruct (negb (str_bool u)).
    + intros [= <- <-]. apply extends_refl.
    + apply geocode_extends.
Qed.

Lemma count_table_entry_extends kv s o s' :
  count_table_entry net kv s = (o, s') → extends s s'.
Proof.
  unfold count_table_entry.
  apply bind_extends; [intros ??; apply dbpedia_top1_extends|].
  intros u1 s1 o1 s1'.
  apply bind_extends; [intros ??; apply dbpedia_top1_extends|].
  intros u2 s2 o2 s2'.
  apply bind_extends; [intros ??; apply geocode_extends|].
  intros c s3 o3 s3' [= <- <-]. apply extends_refl.
Qed.

Lemma count_table_extends loc s o s' :
  count_table net loc s = (o, s') → extends s s'.
Proof.
  unfold count_table. apply bind_extends.
  - intros ??. apply mapM_extends. apply count_table_entry_extends.
  - intros rows s1 o2 s2 [= <- <-]. apply extends_refl.
Qed.

(** The whole callback only ever moves to a later state. *)
Lemma fetch_and_map_extends loc s o s' :
  fetch_and_map net loc s = (o, s') → extends s s'.
Proof.
  unfold fetch_and_map. apply bind_extends.
  - intros ??. apply mapM_extends. apply resolution_extends.
  - intros cs s1 o2 s2. apply bind_extends.
    + intros ??. apply count_table_extends.
    + intros df s3 o3 s4 [= <- <-]. apply extends_refl.
Qed.

(* --------------------------------------------------------------------- *)
(* Memoisation                                                              *)
(* --------------------------------------------------------------------- *)

Lemma dbpedia_lookup_replay toponyme s v s1 s2 :
  dbpedia_lookup net toponyme s = (Ret v, s1) → extends s1 s2 →
  dbpedia_lookup net toponyme s2 = (Ret v, s2).
Proof.
  intros Hcall (Hsub & _).
  apply cache_hit. eapply lookup_weaken; [|exact Hsub].
  eapply (cache_Ret_stored lookup_cache store_lookup); [|exact Hcall].
  intros. apply lookup_insert_eq.
Qed.

Lemma dbpedia_top1_replay toponyme s v s1 s2 :
  dbpedia_top1 net toponyme s = (Ret v, s1) → extends s1 s2 →
  dbpedia_top1 net toponyme s2 = (Ret v, s2).
Proof.
  intros Hcall (_ & Hsub & _).
  apply cache_hit. eapply lookup_weaken; [|exact Hsub].
  eapply (cache_Ret_stored top1_cache store_top1); [|exact Hcall].
  intros. apply lookup_insert_eq.
Qed.

Lemma geocode_replay uri s v s1 s2 :
  geocode net uri s = (Ret v, s1) → extends s1 s2 →
  geocode net uri s2 = (Ret v, s2).
Proof.
  intros Hcall (_ & _ & Hsub & _).
  apply cache_hit. eapply lookup_weaken; [|exact Hsub].
  eapply (cache_Ret_stored geocode_cache store_geocode); [|exact Hcall].
  intros. apply lookup_insert_eq.
Qed.

(** A miss of dbpedia_lookup issues the GET request, whatever comes of it. *)
Lemma dbpedia_lookup_miss_requests toponyme s :
  lookup_cache s !! toponyme = None →
  requests (snd (dbpedia_lookup net toponyme s))
  = (requests s ++ [GET (lookup_url toponyme)])%list.
Proof.
  intros Hk. unfold dbpedia_lookup, cache. rewrite Hk, dbpedia_lookup_body_spec.
  by destruct (lookup_service _ _ _).
Qed.

Lemma dbpedia_lookup_Raise toponyme s e s1 :
  dbpedia_lookup net toponyme s = (Raise e, s1) →
  lookup_cache s !! toponyme = None
  ∧ s1 = log_request (GET (lookup_url toponyme)) s.
Proof.
  unfold dbpedia_lookup, cache.
  destruct (lookup_cache s !! toponyme) as [v|]; [done|].
  rewrite dbpedia_lookup_body_spec.
  by destruct (lookup_service _ _ _); intros [= <- <-].
Qed.

Lemma geocode_body_state uri s :
  snd (geocode_body net uri s) = log_request (POST sparql_url (sparql_query uri)) s.
Proof.
  unfold geocode_body, bind, http_post_json.
  destruct (sparql_service _ _ _) as [j|]; [|done].
  destruct (get_bindings j) as [|b bs]; [done|].
  unfold py_float, raise, ret.
  destruct (get_value b "lat") as [sl|]; [|done].
  destruct (float_of_str sl); [|done].
  destruct (get_value b "long") as [so|]; [|done].
  by destruct (float_of_str so).
Qed.

(** A miss of geocode issues the POST request, whatever comes of it. *)
Lemma geocode_miss_requests uri s :
  geocode_cache s !! uri = None →
  requests (snd (geocode net uri s))
  = (requests s ++ [POST sparql_url (sparql_query uri)])%list.
Proof.
  intros Hk. unfold geocode, cache. rewrite Hk.
  pose proof (geocode_body_state uri s) as Hb.
  destruct (geocode_body net uri s) as [[v|e] s1]; cbn in Hb; by subst s1.
Qed.

Lemma geocode_Raise uri s e s1 :
  geocode net uri s = (Raise e, s1) →
  geocode_cache s !! uri = None
  ∧ s1 = log_request (POST sparql_url (sparql_query uri)) s.
Proof.
  unfold geocode, cache.
  destruct (geocode_cache s !! uri) as [v|]; [done|].
  pose proof (geocode_body_state uri s) as Hb.
  destruct (geocode_body net uri s) as [[v|e'] s2]; [done|].
  cbn in Hb. by intros [= <- <-].
Qed.

(** C8 (amended): once a call of dbpedia_lookup, dbpedia_top1 or geocode
    with a key has returned a value, every call with that key in a later
    state of the process returns the identical value and leaves the state
    as it is: no request is added to the log.  A call of dbpedia_lookup
    or of geocode that raised has stored nothing: the key is still out of
    the function's cache, and the next call with that key issues the
    request again. *)
Theorem cached_value_is_replayed :
  (∀ toponyme s v s1 s2,
     dbpedia_lookup net toponyme s = (Ret v, s1) → extends s1 s2 →
     dbpedia_lookup net toponyme s2 = (Ret v, s2))
  ∧ (∀ toponyme s v s1 s2,
       dbpedia_top1 net toponyme s = (Ret v, s1) → extends s1 s2 →
       dbpedia_top1 net toponyme s2 = (Ret v, s2))
  ∧ (∀ uri s v s1 s2,
       geocode net uri s = (Ret v, s1) → extends s1 s2 →
       geocode net uri s2 = (Ret v, s2))
  ∧ (∀ toponyme s e s1,
       dbpedia_lookup net toponyme s = (Raise e, s1) →
       lookup_cache s1 !! toponyme = None
       ∧ requests (snd (dbpedia_lookup net toponyme s1))
         = (requests s1 ++ [GET (lookup_url toponyme)])%list)
  ∧ (∀ uri s e s1,
       geocode net uri s = (Raise e, s1) →
       geocode_cache s1 !! uri = None
       ∧ requests (snd (geocode net uri s1))
         = (requests s1 ++ [POST sparql_url (sparql_query uri)])%list).
Proof.
  split; [|split; [|split; [|split]]].
  - apply dbpedia_lookup_replay.
  - apply dbpedia_top1_replay.
  - apply geocode_replay.
  - intros k s e s1 [Hk ->]%dbpedia_lookup_Raise.
    split; [done|]. by apply dbpedia_lookup_miss_requests.
  - intros k s e s1 [Hk ->]%geocode_Raise.
    split; [done|]. by apply geocode_miss_requests.
Qed.

(** A call that raises is not stored: with the key in no cache and the
    lookup request failing, dbpedia_lookup raises, logs the request and
    leaves the key out of its cache, so the next call starts over. *)
Lemma dbpedia_lookup_failure_not_cached toponyme s :
  lookup_cache s !! toponyme = None →
  lookup_service net (requests s) (lookup_url toponyme) = None →
  dbpedia_lookup net toponyme s
    = (Raise RequestException, log_request (GET (lookup_url toponyme)) s)
  ∧ lookup_cache (log_request (GET (lookup_url toponyme)) s) !! toponyme = None.
Proof.
  intros Hk Hnet. split; [|done].
  apply cache_miss_Raise; [done|]. by rewrite dbpedia_lookup_body_spec, Hnet.
Qed.

(* --------------------------------------------------------------------- *)
(* dbpedia_top1                                                             *)
(* --------------------------------------------------------------------- *)

Lemma dbpedia_top1_miss toponyme s :
  top1_cache s !! toponyme = None →
  dbpedia_top1 net toponyme s =
    match dbpedia_top1_body net toponyme s with
    | (Ret v, s') => (Ret v, store_top1 toponyme v s')
    | (Raise e, s') => (Raise e, s')
    end.
Proof. intros Hk. unfold dbpedia_top1, cache. by rewrite Hk. Qed.

(** C10: when the lookup of a toponym not yet in dbpedia_top1's cache gives
    a non-empty list, dbpedia_top1 raises TypeError if the first document
    has no "resource" field (None[0]) and IndexError if the field is an
    empty list; it returns a value exactly when the first document has a
    non-empty "resource" list, and the value is the first element. *)
Theorem dbpedia_top1_needs_resource toponyme s d r s1 :
  top1_cache s !! toponyme = None →
  dbpedia_lookup net toponyme s = (Ret (d :: r), s1) →
  (d !! "resource" = None →
     dbpedia_top1 net toponyme s = (Raise TypeError, s1))
  ∧ (d !! "resource" = Some [] →
       dbpedia_top1 net toponyme s = (Raise IndexError, s1))
  ∧ (∀ u us, d !! "resource" = Some (u :: us) →
       dbpedia_top1 net toponyme s = (Ret (Some u), store_top1 toponyme (Some u) s1))
  ∧ ((∃ v s', dbpedia_top1 net toponyme s = (Ret v, s'))
       ↔ ∃ u us, d !! "resource" = Some (u :: us)).
Proof.
  intros Hk Hl.
  assert (Hcall : dbpedia_top1 net toponyme s =
            match d !! "resource" with
            | None => (Raise TypeError, s1)
            | Some [] => (Raise IndexError, s1)
            | Some (u :: _) => (Ret (Some u), store_top1 toponyme (Some u) s1)
            end).
  { rewrite dbpedia_top1_miss by done.
    unfold dbpedia_top1_body. rewrite (bind_Ret _ _ _ _ _ Hl).
    by destruct (d !! "resource") as [[|u us]|]. }
  rewrite Hcall. repeat split.
  - by intros ->.
  - by intros ->.
  - by intros u us ->.
  - intros (v & s' & Hv). destruct (d !! "resource") as [[|u us]|]; [done| |done].
    by exists u, us.
  - intros (u & us & ->). by eexists _, _.
Qed.

(* --------------------------------------------------------------------- *)
(* geocode                                                                  *)
(* --------------------------------------------------------------------- *)

Lemma geocode_miss uri s :
  geocode_cache s !! uri = None →
  geocode net uri s =
    match geocode_body net uri s with
    | (Ret v, s') => (Ret v, store_geocode uri v s')
    | (Raise e, s') => (Raise e, s')
    end.
Proof. intros Hk. unfold geocode, cache. by rewrite Hk. Qed.

(** The body of geocode once the service has answered with a first
    binding. *)
Lemma geocode_body_first_binding uri s j b bs :
  sparql_service net (requests s) (sparql_query uri) = Some j →
  get_bindings j = b :: bs →
  geocode_body net uri s =
    (lat <- py_float (get_value b "lat") ;;
     long <- py_float (get_value b "long") ;;
     ret (or_None lat, or_None long))
      (log_request (POST sparql_url (sparql_query uri)) s).
Proof.
  intros Hj Hb. unfold geocode_body, bind at 1, http_post_json.
  by rewrite Hj, Hb.
Qed.

(** No binding: the explicit pair (None, None), stored in the cache. *)
Lemma geocode_no_binding uri s j :
  geocode_cache s !! uri = None →
  sparql_service net (requests s) (sparql_query uri) = Some j →
  get_bindings j = [] →
  geocode net uri s =
    (Ret (None, None),
     store_geocode uri (None, None) (log_request (POST sparql_url (sparql_query uri)) s)).
Proof.
  intros Hk Hj Hb. rewrite geocode_miss by done.
  unfold geocode_body, bind, http_post_json. by rewrite Hj, Hb.
Qed.

(** Both values present and read by float: each component is the float,
    or None when the float is zero. *)
Lemma geocode_parsed uri s j b bs sl so x y :
  geocode_cache s !! uri = None →
  sparql_service net (requests s) (sparql_query uri) = Some j →
  get_bindings j = b :: bs →
  get_value b "lat" = Some sl → get_value b "long" = Some so →
  float_of_str sl = Some x → float_of_str so = Some y →
  geocode net uri s =
    (Ret (or_None x, or_None y),
     store_geocode uri (or_None x, or_None y)
       (log_request (POST sparql_url (sparql_query uri)) s)).
Proof.
  intros Hk Hj Hb Hlat Hlong Hx Hy. rewrite geocode_miss by done.
  rewrite (geocode_body_first_binding _ _ _ _ _ Hj Hb), Hlat, Hlong.
  unfold bind, py_float, ret. by rewrite Hx, Hy.
Qed.

(** A field missing from the first binding: float(None) raises. *)
Lemma geocode_missing_field uri s j b bs :
  geocode_cache s !! uri = None →
  sparql_service net (requests s) (sparql_query uri) = Some j →
  get_bindings j = b :: bs →
  get_value b "lat" = None
  ∨ (∃ sl x, get_value b "lat" = Some sl ∧ float_of_str sl = Some x
             ∧ get_value b "long" = None) →
  geocode net uri s =
    (Raise TypeError, log_request (POST sparql_url (sparql_query uri)) s).
Proof.
  intros Hk Hj Hb Hmiss. rewrite geocode_miss by done.
  rewrite (geocode_body_first_binding _ _ _ _ _ Hj Hb).
  destruct Hmiss as [Hlat|(sl & x & Hlat & Hx & Hlong)].
  - by rewrite Hlat.
  - rewrite Hlat, Hlong. unfold bind, py_float. by rewrite Hx.
Qed.

(** C9 (amended): when the first binding carries string values for both
    the latitude and the longitude and float cannot read the latitude, or
    reads the latitude and cannot read the longitude, geocode (called with
    a key not in its cache) raises ValueError; nothing is cached. *)
Theorem geocode_malformed_raises_ValueError uri s j b bs sl so :
  geocode_cache s !! uri = None →
  sparql_service net (requests s) (sparql_query uri) = Some j →
  get_bindings j = b :: bs →
  get_value b "lat" = Some sl → get_value b "long" = Some so →
  float_of_str sl = None ∨ float_of_str so = None →
  geocode net uri s =
    (Raise ValueError, log_request (POST sparql_url (sparql_query uri)) s).
Proof.
  intros Hk Hj Hb Hlat Hlong Hbad. rewrite geocode_miss by done.
  rewrite (geocode_body_first_binding _ _ _ _ _ Hj Hb), Hlat, Hlong.
  unfold bind, py_float, ret, raise.
  destruct (float_of_str sl) as [x|] eqn:Hx; [|done].
  destruct Hbad as [?|Hy]; [done|]. by rewrite Hy.
Qed.

(* --------------------------------------------------------------------- *)
(* resolution                                                               *)
(* --------------------------------------------------------------------- *)

Lemma str_bool_false uri : str_bool uri = false ↔ uri = None ∨ uri = Some EmptyString.
Proof.
  destruct uri as [u|]; cbn.
  - rewrite negb_false_iff, String.eqb_eq. split; [intros ->; by right|].
    by intros [?|[= ->]].
  - split; [by left|done].
Qed.

Lemma resolution_top1_raises toponyme s e s1 :
  dbpedia_top1 net toponyme s = (Raise e, s1) →
  resolution net toponyme s = (Raise e, s1).
Proof. intros Ht. unfold resolution. by rewrite (bind_Raise _ _ _ _ _ Ht). Qed.

Lemma resolution_falsy toponyme s u s1 :
  dbpedia_top1 net toponyme s = (Ret u, s1) → u = None ∨ u = Some EmptyString →
  resolution net toponyme s = (Ret (None, None), s1).
Proof.
  intros Ht Hu. unfold resolution. rewrite (bind_Ret _ _ _ _ _ Ht).
  apply str_bool_false in Hu. by rewrite Hu.
Qed.

Lemma resolution_geocodes toponyme s u s1 :
  dbpedia_top1 net toponyme s = (Ret (Some u), s1) → u ≠ EmptyString →
  resolution net toponyme s = geocode net (Some u) s1.
Proof.
  intros Ht Hu. unfold resolution. rewrite (bind_Ret _ _ _ _ _ Ht).
  destruct (str_bool (Some u)) eqn:Hb; [done|].
  apply str_bool_false in Hb as [?|[= ?]]; done.
Qed.

(** C6 (amended): resolution first calls dbpedia_top1 and raises what it
    raises; if the reference is None or the empty string it returns
    (None, None) in the state dbpedia_top1 left, so without any call of
    geocode; otherwise it is exactly geocode of that reference (its value,
    its exception, its state), with no other document tried. *)
Theorem resolution_top1_then_geocode toponyme s :
  (∀ e s1, dbpedia_top1 net toponyme s = (Raise e, s1) →
     resolution net toponyme s = (Raise e, s1))
  ∧ (∀ u s1, dbpedia_top1 net toponyme s = (Ret u, s1) →
       u = None ∨ u = Some EmptyString →
       resolution net toponyme s = (Ret (None, None), s1))
  ∧ (∀ u s1, dbpedia_top1 net toponyme s = (Ret (Some u), s1) → u ≠ EmptyString →
       resolution net toponyme s = geocode net (Some u) s1).
Proof.
  repeat split.
  - apply resolution_top1_raises.
  - apply resolution_falsy.
  - apply resolution_geocodes.
Qed.

(** A failing lookup request makes resolution raise. *)
Lemma resolution_lookup_fails toponyme s :
  top1_cache s !! toponyme = None → lookup_cache s !! toponyme = None →
  lookup_service net (requests s) (lookup_url toponyme) = None →
  resolution net toponyme s =
    (Raise RequestException, log_request (GET (lookup_url toponyme)) s).
Proof.
  intros Ht Hl Hnet. apply resolution_top1_raises.
  rewrite dbpedia_top1_miss by done. unfold dbpedia_top1_body.
  erewrite bind_Raise; [done|].
  apply cache_miss_Raise; [done|].
  by rewrite dbpedia_lookup_body_spec, Hnet.
Qed.

(** A failing SPARQL request makes resolution raise. *)
Lemma resolution_geocode_fails toponyme s u s1 :
  dbpedia_top1 net toponyme s = (Ret (Some u), s1) → u ≠ EmptyString →
  geocode_cache s1 !! Some u = None →
  sparql_service net (requests s1) (sparql_query (Some u)) = None →
  resolution net toponyme s =
    (Raise RequestException,
     log_request (POST sparql_url (sparql_query (Some u))) s1).
Proof.
  intros Ht Hu Hk Hnet.
  rewrite (resolution_geocodes _ _ _ _ Ht Hu).
  rewrite geocode_miss by done.
  unfold geocode_body, bind, http_post_json. by rewrite Hnet.
Qed.

(** No candidate: resolution returns (None, None) after the lookup
    request alone. *)
Lemma resolution_no_candidates toponyme s j :
  top1_cache s !! toponyme = None → lookup_cache s !! toponyme = None →
  lookup_service net (requests s) (lookup_url toponyme) = Some j →
  default [] (docs j) = [] →
  resolution net toponyme s =
    (Ret (None, None),
     store_top1 toponyme None
       (store_lookup toponyme [] (log_request (GET (lookup_url toponyme)) s))).
Proof.
  intros Ht Hl Hnet Hdocs.
  apply (resolution_falsy _ _ None); [|by left].
  rewrite dbpedia_top1_miss by done. unfold dbpedia_top1_body.
  assert (dbpedia_lookup net toponyme s
          = (Ret [], store_lookup toponyme [] (log_request (GET (lookup_url toponyme)) s)))
    as Hcall.
  { apply cache_miss_Ret; [done|].
    by rewrite dbpedia_lookup_body_spec, Hnet, Hdocs. }
  by rewrite (bind_Ret _ _ _ _ _ Hcall).
Qed.

(* --------------------------------------------------------------------- *)
(* Exceptions in a batch                                                    *)
(* --------------------------------------------------------------------- *)

(** C2 (amended): an exception raised for one toponym of a batch (a
    transport failure of its lookup or geocode request, or any other)
    is not caught: when the toponyms before it resolve and its resolution
    raises, fetch_and_map raises that exception and returns no coordinate
    list and no table; when the entries before it are built and its entry
    raises, count_table raises that exception and returns no table. *)
Theorem failure_aborts_batch :
  (∀ pre toponyme post s cs s1 e s2,
     mapM (resolution net) pre s = (Ret cs, s1) →
     resolution net toponyme s1 = (Raise e, s2) →
     fetch_and_map net (pre ++ toponyme :: post)%list s = (Raise e, s2))
  ∧ (∀ loc pre kv post s rs s1 e s2,
       Counter loc = (pre ++ kv :: post)%list →
       mapM (count_table_entry net) pre s = (Ret rs, s1) →
       count_table_entry net kv s1 = (Raise e, s2) →
       count_table net loc s = (Raise e, s2)).
Proof.
  split.
  - intros pre t post s cs s1 e s2 Hpre Ht. unfold fetch_and_map.
    apply bind_Raise. by eapply mapM_Raise_at.
  - intros loc pre kv post s rs s1 e s2 Hloc Hpre Hkv. unfold count_table.
    apply bind_Raise. rewrite Hloc. by eapply mapM_Raise_at.
Qed.

(* --------------------------------------------------------------------- *)
(* count_table                                                              *)
(* --------------------------------------------------------------------- *)

#[local] Instance key_ge_trans {A} (key : A → nat) : Transitive (key_ge key).
Proof. intros a b c. unfold key_ge. lia. Qed.

Lemma StronglySorted_lookup {A} (R : relation A) (l : list A) i j a b :
  StronglySorted R l → i < j → l !! i = Some a → l !! j = Some b → R a b.
Proof.
  intros Hs. revert i j. induction Hs as [|x l Hs IH Hall]; intros i j Hij Hi Hj.
  - done.
  - destruct j as [|j]; [lia|]. destruct i as [|i]; simplify_eq/=.
    + eapply Forall_lookup_1; eauto.
    + eapply IH; [|done..]. lia.
Qed.

Lemma count_table_Ret loc s df s' :
  count_table net loc s = (Ret df, s') →
  ∃ rows, mapM (count_table_entry net) (Counter loc) s = (Ret rows, s')
          ∧ df = sort_values_desc occs (dropna rows).
Proof.
  unfold count_table, bind.
  destruct (mapM _ _ s) as [[rows|e] s1]; [|done].
  intros [= <- <-]. by exists rows.
Qed.

Lemma count_table_entry_Ret kv s r s' :
  count_table_entry net kv s = (Ret r, s') → index r = kv.1 ∧ occs r = kv.2.
Proof.
  unfold count_table_entry, bind.
  destruct (dbpedia_top1 net kv.1 s) as [[u1|e] s1]; [|done].
  destruct (dbpedia_top1 net kv.1 s1) as [[u2|e] s2]; [|done].
  destruct (geocode net u2 s2) as [[c|e] s3]; [|done].
  by intros [= <- <-].
Qed.

(** An entry is built by geocoding whatever dbpedia_top1 returned, None
    included: there is no guard on the reference here. *)
Lemma count_table_entry_run kv s u s1 c s2 :
  dbpedia_top1 net kv.1 s = (Ret u, s1) → geocode net u s1 = (Ret c, s2) →
  count_table_entry net kv s
    = (Ret {| index := kv.1; occs := kv.2; db_pedia := u; coordinates := c |}, s2).
Proof.
  intros Ht Hg. unfold count_table_entry.
  rewrite (bind_Ret _ _ _ _ _ Ht).
  rewrite (bind_Ret _ _ _ _ _ (dbpedia_top1_replay _ _ _ _ _ Ht (extends_refl s1))).
  by rewrite (bind_Ret _ _ _ _ _ Hg).
Qed.

Lemma count_table_entry_geocode_raises kv s u s1 e s2 :
  dbpedia_top1 net kv.1 s = (Ret u, s1) → geocode net u s1 = (Raise e, s2) →
  count_table_entry net kv s = (Raise e, s2).
Proof.
  intros Ht Hg. unfold count_table_entry.
  rewrite (bind_Ret _ _ _ _ _ Ht).
  rewrite (bind_Ret _ _ _ _ _ (dbpedia_top1_replay _ _ _ _ _ Ht (extends_refl s1))).
  by rewrite (bind_Raise _ _ _ _ _ Hg).
Qed.

(** What dropna keeps is decided by the db_pedia column alone. *)
Lemma dropna_keeps (r : @row float) :
  negb (existsb isna (cells r)) = bool_decide (is_Some (db_pedia r)).
Proof. unfold cells. cbn. by destruct (db_pedia r). Qed.

(** Every row of the table has an entity reference. *)
Lemma count_table_rows_have_db_pedia loc s df s' r :
  count_table net loc s = (Ret df, s') → r ∈ df → is_Some (db_pedia r).
Proof.
  intros (rows & _ & ->)%count_table_Ret.
  rewrite sort_values_desc_perm. unfold dropna.
  rewrite list_elem_of_In, filter_In, dropna_keeps.
  intros [_ Hr]. by apply bool_decide_eq_true in Hr.
Qed.

(** C7: in every table that count_table returns, a row never has fewer
    occurrences than a row below it; and for the occurrences Paris, Paris,
    Lyon, Paris, Lyon, when Paris and then Lyon get an entity reference
    and a coordinate, the table is the row of Paris, with 3 occurrences,
    followed by the row of Lyon, with 2. *)
Theorem count_table_sorted_by_occs_desc :
  (∀ loc s df s' i j a b,
     count_table net loc s = (Ret df, s') →
     i < j → df !! i = Some a → df !! j = Some b → (occs b ≤ occs a)%nat)
  ∧ (∀ s uP s1 cP s2 uL s3 cL s4,
       dbpedia_top1 net "Paris" s = (Ret (Some uP), s1) →
       geocode net (Some uP) s1 = (Ret cP, s2) →
       dbpedia_top1 net "Lyon" s2 = (Ret (Some uL), s3) →
       geocode net (Some uL) s3 = (Ret cL, s4) →
       count_table net ["Paris"; "Paris"; "Lyon"; "Paris"; "Lyon"] s
         = (Ret [ {| index := "Paris"; occs := 3; db_pedia := Some uP;
                     coordinates := cP |};
                  {| index := "Lyon"; occs := 2; db_pedia := Some uL;
                     coordinates := cL |} ], s4)).
Proof.
  split.
  - intros loc s df s' i j a b (rows & _ & ->)%count_table_Ret Hij Hi Hj.
    eapply (StronglySorted_lookup (key_ge occs)); [|exact Hij|exact Hi|exact Hj].
    apply Sorted_StronglySorted; [apply _|]. apply sort_values_desc_sorted.
  - intros s uP s1 cP s2 uL s3 cL s4 HtP HgP HtL HgL.
    pose proof (count_table_entry_run ("Paris", 3) _ _ _ _ _ HtP HgP) as HP.
    pose proof (count_table_entry_run ("Lyon", 2) _ _ _ _ _ HtL HgL) as HL.
    cbn [fst snd] in HP, HL.
    set (rP := {| index := "Paris"; occs := 3; db_pedia := Some uP;
                  coordinates := cP |}) in *.
    set (rL := {| index := "Lyon"; occs := 2; db_pedia := Some uL;
                  coordinates := cL |}) in *.
    unfold count_table.
    assert (Counter ["Paris"; "Paris"; "Lyon"; "Paris"; "Lyon"]
            = [("Paris", 3); ("Lyon", 2)]) as -> by reflexivity.
    assert (mapM (count_table_entry net) [("Paris", 3); ("Lyon", 2)] s
            = (Ret [rP; rL], s4)) as Hrows.
    { cbn [mapM]. unfold bind, ret. rewrite HP. cbv beta iota. by rewrite HL. }
    rewrite (bind_Ret _ _ _ _ _ Hrows). unfold ret. f_equal. f_equal.
    assert (dropna [rP; rL] = [rP; rL]) as -> by reflexivity.
    pose proof (sort_values_desc_perm _ occs [rP; rL]) as Hperm.
    pose proof (sort_values_desc_sorted _ occs [rP; rL]) as Hsorted.
    symmetry in Hperm. apply Permutation_length_2_inv in Hperm as [->| Hswap]; [done|].
    rewrite Hswap in Hsorted. exfalso.
    apply Sorted_inv in Hsorted as [_ Hhd]. apply HdRel_inv in Hhd.
    cbn in Hhd. lia.
Qed.

End Properties.

(* ===================================================================== *)
(* Further properties of the code                                          *)
(* ===================================================================== *)

(* --------------------------------------------------------------------- *)
(* Counter                                                                  *)
(* --------------------------------------------------------------------- *)

Section CounterProperties.

Implicit Types (k : string) (c : list (string * nat)) (loc : list string).

Lemma occurrences_cons k x loc :
  occurrences k (x :: loc) = (if decide (x = k) then 1 else 0) + occurrences k loc.
Proof.
  unfold occurrences. rewrite filter_cons. by destruct (decide (x = k)).
Qed.

Lemma occurrences_pos k loc : k ∈ loc ↔ (0 < occurrences k loc)%nat.
Proof.
  induction loc as [|x loc IH].
  - split; [by intros ?%elem_of_nil|]. unfold occurrences. cbn. lia.
  - rewrite occurrences_cons, elem_of_cons, IH.
    destruct (decide (x = k)) as [->|Hne].
    + split; [intros _; lia|intros _; by left].
    + split; [intros [->|?]; [done|lia]|intros ?; right; lia].
Qed.

Lemma counter_add_keys k' k c :
  k' ∈ (counter_add k c).*1 ↔ k' = k ∨ k' ∈ c.*1.
Proof.
  induction c as [|[k0 n] c IH]; cbn.
  - rewrite list_elem_of_singleton. split; [by left|]. intros [?|?%elem_of_nil]; done.
  - destruct (decide (k = k0)) as [->|Hne]; cbn; rewrite !elem_of_cons.
    + split; [by right|]. intros [->|?]; [by left|done].
    + rewrite IH. tauto.
Qed.

Lemma counter_add_NoDup k c : NoDup c.*1 → NoDup (counter_add k c).*1.
Proof.
  induction c as [|[k0 n] c IH]; cbn.
  - intros _. apply NoDup_singleton.
  - rewrite NoDup_cons. intros [Hk0 Hc].
    destruct (decide (k = k0)) as [->|Hne]; cbn; rewrite NoDup_cons.
    + done.
    + split; [|by apply IH]. rewrite counter_add_keys. intros [?|?]; done.
Qed.

Lemma counter_get_add k' k c :
  counter_get k' (counter_add k c)
  = (if decide (k = k') then 1 else 0) + counter_get k' c.
Proof.
  induction c as [|[k0 n] c IH]; cbn.
  - destruct (decide (k' = k)) as [->|?].
    + by rewrite decide_True.
    + by rewrite decide_False.
  - destruct (decide (k = k0)) as [->|Hne]; cbn.
    + destruct (decide (k' = k0)) as [->|?].
      * by rewrite decide_True.
      * by rewrite decide_False.
    + destruct (decide (k' = k0)) as [->|?]; [|done].
      by rewrite decide_False.
Qed.

Lemma counter_add_sum k c :
  sum_list (counter_add k c).*2 = S (sum_list c.*2).
Proof.
  induction c as [|[k0 n] c IH]; cbn; [done|].
  destruct (decide (k = k0)); cbn; [done|]. rewrite IH. lia.
Qed.

Lemma counter_get_elem k n c :
  NoDup c.*1 → (k, n) ∈ c → counter_get k c = n.
Proof.
  induction c as [|[k0 n0] c IH]; cbn.
  - by intros _ ?%elem_of_nil.
  - rewrite NoDup_cons, elem_of_cons. intros [Hk0 Hc] [[= -> ->]|Hin].
    + by rewrite decide_True.
    + rewrite decide_False; [by apply IH|].
      intros ->. apply Hk0. by apply (list_elem_of_fmap_2 fst) in Hin.
Qed.

Lemma counter_get_key k c : k ∈ c.*1 → (k, counter_get k c) ∈ c.
Proof.
  induction c as [|[k0 n0] c IH]; cbn.
  - by intros ?%elem_of_nil.
  - rewrite elem_of_cons. intros Hk.
    destruct (decide (k = k0)) as [->|Hne]; [by left|].
    right. apply IH. by destruct Hk.
Qed.

Lemma Counter_fold c loc :
  let c' := foldl (λ c k, counter_add k c) c loc in
  (NoDup c.*1 → NoDup c'.*1)
  ∧ (∀ k, k ∈ c'.*1 ↔ k ∈ c.*1 ∨ k ∈ loc)
  ∧ (∀ k, counter_get k c' = counter_get k c + occurrences k loc)
  ∧ sum_list c'.*2 = sum_list c.*2 + length loc.
Proof.
  revert c. induction loc as [|x loc IH]; intros c; cbn [foldl].
  - split; [done|]. split; [|split].
    + intros k. split; [by left|]. by intros [?|?%elem_of_nil].
    + intros k. unfold occurrences. cbn. lia.
    + cbn. lia.
  - destruct (IH (counter_add x c)) as (HND & Hkeys & Hget & Hsum).
    split; [|split; [|split]].
    + intros Hc. by apply HND, counter_add_NoDup.
    + intros k. rewrite Hkeys, counter_add_keys, elem_of_cons. tauto.
    + intros k. rewrite Hget, counter_get_add, occurrences_cons. lia.
    + rewrite Hsum, counter_add_sum. cbn. lia.
Qed.

Lemma Counter_spec loc :
  NoDup (Counter loc).*1
  ∧ (∀ k n, (k, n) ∈ Counter loc ↔ k ∈ loc ∧ n = occurrences k loc)
  ∧ (∀ k n, (k, n) ∈ Counter loc → (1 ≤ n)%nat)
  ∧ sum_list (Counter loc).*2 = length loc.
Proof.
  destruct (Counter_fold [] loc) as (HND & Hkeys & Hget & Hsum).
  fold (Counter loc) in *. cbn in *.
  assert (HN : NoDup (Counter loc).*1) by (apply HND, NoDup_nil_2).
  assert (Hiff : ∀ k n, (k, n) ∈ Counter loc ↔ k ∈ loc ∧ n = occurrences k loc).
  { intros k n. split.
    - intros Hin. split.
      + apply (list_elem_of_fmap_2 fst) in Hin. apply Hkeys in Hin as [?%elem_of_nil|?]; done.
      + by rewrite <- (counter_get_elem _ _ _ HN Hin), Hget.
    - intros [Hk ->]. rewrite <- (Nat.add_0_l (occurrences k loc)).
      change 0 with (counter_get k []). rewrite <- Hget.
      apply counter_get_key, Hkeys. by right. }
  split; [done|]. split; [done|]. split; [|done].
  intros k n [Hk ->]%Hiff. by apply occurrences_pos in Hk.
Qed.

(** Counter(loc) has one entry per distinct element of the list: no key
    twice, and [(k, n)] is an entry exactly when [k] occurs in the list
    and [n] is its number of occurrences (so no count is 0); the counts
    add up to the length of the list. *)
Theorem Counter_counts loc :
  NoDup (Counter loc).*1
  ∧ (∀ k n, (k, n) ∈ Counter loc ↔ k ∈ loc ∧ n = occurrences k loc)
  ∧ (∀ k n, (k, n) ∈ Counter loc → (1 ≤ n)%nat)
  ∧ sum_list (Counter loc).*2 = length loc.
Proof. exact (Counter_spec loc). Qed.

End CounterProperties.

Section StateProperties.
Context {float : Type} `{!PyFloat float} `{!SortValues} (net : Network).
Local Open Scope nat_scope.

Implicit Types (s : @state float) (toponyme : string) (uri : option string).

(* --------------------------------------------------------------------- *)
(* What each function leaves alone                                          *)
(* --------------------------------------------------------------------- *)

Lemma dbpedia_lookup_geocode_cache toponyme s o s' :
  dbpedia_lookup net toponyme s = (o, s') → geocode_cache s' = geocode_cache s.
Proof.
  apply (cache_table_other lookup_cache geocode_cache).
  - intros o1 s1. rewrite dbpedia_lookup_body_spec.
    by destruct (lookup_service _ _ _); intros [= <- <-].
  - done.
Qed.

Lemma dbpedia_top1_body_frame toponyme s o s' :
  dbpedia_top1_body net toponyme s = (o, s') →
  top1_cache s' = top1_cache s ∧ geocode_cache s' = geocode_cache s
  ∧ requests s' = requests (snd (dbpedia_lookup net toponyme s))
  ∧ lookup_cache s' = lookup_cache (snd (dbpedia_lookup net toponyme s)).
Proof.
  unfold dbpedia_top1_body, bind.
  destruct (dbpedia_lookup net toponyme s) as [[r|e] s2] eqn:Hl;
    pose proof (dbpedia_lookup_top1_cache _ _ _ _ _ Hl);
    pose proof (dbpedia_lookup_geocode_cache _ _ _ _ Hl).
  - destruct r as [|d r]; [by intros [= <- <-]|].
    destruct (d !! "resource") as [[|u us]|]; by intros [= <- <-].
  - by intros [= <- <-].
Qed.

Lemma dbpedia_top1_geocode_cache toponyme s o s' :
  dbpedia_top1 net toponyme s = (o, s') → geocode_cache s' = geocode_cache s.
Proof.
  apply (cache_table_other top1_cache geocode_cache).
  - intros o1 s1 Hb. by apply dbpedia_top1_body_frame in Hb as (_ & ? & _).
  - done.
Qed.

Lemma geocode_body_frame uri s o s' :
  geocode_body net uri s = (o, s') →
  s' = log_request (POST sparql_url (sparql_query uri)) s.
Proof.
  unfold geocode_body, bind, http_post_json.
  destruct (sparql_service _ _ _) as [j|]; [|by intros [= <- <-]].
  destruct (get_bindings j) as [|b bs]; [by intros [= <- <-]|].
  unfold py_float, raise, ret.
  destruct (get_value b "lat") as [sl|];
    [destruct (float_of_str sl)|];
    (destruct (get_value b "long") as [so|];
      [destruct (float_of_str so)|]);
    by intros [= <- <-].
Qed.

Lemma geocode_other_caches uri s o s' :
  geocode net uri s = (o, s') →
  lookup_cache s' = lookup_cache s ∧ top1_cache s' = top1_cache s.
Proof.
  intros Hg. split.
  - revert Hg. apply (cache_table_other geocode_cache lookup_cache); [|done].
    by intros o1 s1 ->%geocode_body_frame.
  - revert Hg. apply (cache_table_other geocode_cache top1_cache); [|done].
    by intros o1 s1 ->%geocode_body_frame.
Qed.

(* --------------------------------------------------------------------- *)
(* Requests issued by a call                                                *)
(* --------------------------------------------------------------------- *)

Lemma requests_between_le s1 s2 s3 n m :
  extends s1 s2 → extends s2 s3 →
  requests_between s1 s2 ≤ n → requests_between s2 s3 ≤ m →
  requests_between s1 s3 ≤ n + m.
Proof.
  unfold requests_between. intros (_&_&_&H12%prefix_length) (_&_&_&H23%prefix_length). lia.
Qed.

Lemma cache_requests {K V} `{Countable K} (table : state → gmap K V) store f k s o s' n :
  (∀ o1 s1, f k s = (o1, s1) → requests_between s s1 ≤ n) →
  (∀ k' v s1, requests (store k' v s1) = requests s1) →
  cache table store f k s = (o, s') →
  requests_between s s' ≤ n ∧ (is_Some (table s !! k) → s' = s).
Proof.
  intros Hf Hstore. unfold cache, requests_between in *.
  destruct (table s !! k) as [v0|].
  - intros [= <- <-]. split; [lia|done].
  - destruct (f k s) as [[v1|e] s1] eqn:Hfk; intros [= <- <-];
      (split; [|by intros [? ?]]).
    + rewrite Hstore. eauto.
    + eauto.
Qed.

Lemma dbpedia_lookup_requests toponyme s o s' :
  dbpedia_lookup net toponyme s = (o, s') → requests_between s s' ≤ 1.
Proof.
  intros Hl. eapply (cache_requests lookup_cache store_lookup); [| |exact Hl]; [|done].
  intros o1 s1. rewrite dbpedia_lookup_body_spec. unfold requests_between.
  destruct (lookup_service _ _ _); intros [= <- <-]; cbn; rewrite length_app; cbn; lia.
Qed.

Lemma dbpedia_top1_requests toponyme s o s' :
  dbpedia_top1 net toponyme s = (o, s') → requests_between s s' ≤ 1.
Proof.
  intros Ht. eapply (cache_requests top1_cache store_top1); [| |exact Ht]; [|done].
  intros o1 s1 Hb. apply dbpedia_top1_body_frame in Hb as (_ & _ & Hreq & _).
  unfold requests_between. rewrite Hreq.
  destruct (dbpedia_lookup net toponyme s) as [o2 s2] eqn:Hl.
  exact (dbpedia_lookup_requests _ _ _ _ Hl).
Qed.

Lemma geocode_requests uri s o s' :
  geocode net uri s = (o, s') → requests_between s s' ≤ 1.
Proof.
  intros Hg. eapply (cache_requests geocode_cache store_geocode); [| |exact Hg]; [|done].
  intros o1 s1 ->%geocode_body_frame. unfold requests_between. cbn.
  rewrite length_app. cbn. lia.
Qed.

Lemma resolution_requests toponyme s o s' :
  resolution net toponyme s = (o, s') → requests_between s s' ≤ 2.
Proof.
  unfold resolution, bind.
  destruct (dbpedia_top1 net toponyme s) as [[u|e] s1] eqn:Ht.
  - pose proof (dbpedia_top1_requests _ _ _ _ Ht) as H1.
    destruct (negb (str_bool u)).
    + intros [= <- <-]. lia.
    + intros Hg. change 2 with (1 + 1).
      eapply requests_between_le; [| |exact H1|exact (geocode_requests _ _ _ _ Hg)].
      * exact (dbpedia_top1_extends _ _ _ _ _ Ht).
      * exact (geocode_extends _ _ _ _ _ Hg).
  - intros [= <- <-]. pose proof (dbpedia_top1_requests _ _ _ _ Ht). lia.
Qed.

(** A call of dbpedia_lookup, dbpedia_top1 or geocode issues at most one
    request, and none when its key is in its cache (the state is then
    left as it is); a call of resolution issues at most two. *)
Theorem requests_per_call :
  (∀ toponyme s o s', dbpedia_lookup net toponyme s = (o, s') →
     requests_between s s' ≤ 1
     ∧ (is_Some (lookup_cache s !! toponyme) → s' = s))
  ∧ (∀ toponyme s o s', dbpedia_top1 net toponyme s = (o, s') →
       requests_between s s' ≤ 1
       ∧ (is_Some (top1_cache s !! toponyme) → s' = s))
  ∧ (∀ uri s o s', geocode net uri s = (o, s') →
       requests_between s s' ≤ 1
       ∧ (is_Some (geocode_cache s !! uri) → s' = s))
  ∧ (∀ toponyme s o s', resolution net toponyme s = (o, s') →
       requests_between s s' ≤ 2).
Proof.
  split; [|split; [|split]].
  - intros k s o s' Hc. split; [exact (dbpedia_lookup_requests _ _ _ _ Hc)|].
    intros [v Hv]. unfold dbpedia_lookup in Hc.
    rewrite (cache_hit _ _ _ _ _ _ Hv) in Hc. by injection Hc.
  - intros k s o s' Hc. split; [exact (dbpedia_top1_requests _ _ _ _ Hc)|].
    intros [v Hv]. unfold dbpedia_top1 in Hc.
    rewrite (cache_hit _ _ _ _ _ _ Hv) in Hc. by injection Hc.
  - intros k s o s' Hc. split; [exact (geocode_requests _ _ _ _ Hc)|].
    intros [v Hv]. unfold geocode in Hc.
    rewrite (cache_hit _ _ _ _ _ _ Hv) in Hc. by injection Hc.
  - apply resolution_requests.
Qed.

(* --------------------------------------------------------------------- *)
(* Exceptions and the caches                                                *)
(* --------------------------------------------------------------------- *)

Lemma cache_Raise_table {K V} `{Countable K}
    (table : state → gmap K V) store f k s e s' :
  (∀ o1 s1, f k s = (o1, s1) → table s1 = table s) →
  cache table store f k s = (Raise e, s') →
  table s' = table s ∧ table s !! k = None.
Proof.
  intros Hf. unfold cache. destruct (table s !! k) as [v0|]; [done|].
  destruct (f k s) as [[v1|e1] s1] eqn:Hfk; [done|].
  intros [= <- <-]. eauto.
Qed.

Lemma dbpedia_lookup_body_frame toponyme s o s' :
  dbpedia_lookup_body net toponyme s = (o, s') →
  s' = log_request (GET (lookup_url toponyme)) s.
Proof.
  rewrite dbpedia_lookup_body_spec.
  by destruct (lookup_service _ _ _); intros [= <- <-].
Qed.

(** A call that raises stores nothing in the function's own cache: after
    dbpedia_lookup or geocode raised, the three caches are as before;
    after dbpedia_top1 raised, its own cache and geocode's are as before
    (the cache of dbpedia_lookup may have gained the lookup result); in
    each case the key is still out of the function's own cache. *)
Theorem raise_stores_nothing :
  (∀ toponyme s e s', dbpedia_lookup net toponyme s = (Raise e, s') →
     lookup_cache s' = lookup_cache s ∧ top1_cache s' = top1_cache s
     ∧ geocode_cache s' = geocode_cache s ∧ lookup_cache s' !! toponyme = None)
  ∧ (∀ toponyme s e s', dbpedia_top1 net toponyme s = (Raise e, s') →
       top1_cache s' = top1_cache s ∧ geocode_cache s' = geocode_cache s
       ∧ top1_cache s' !! toponyme = None)
  ∧ (∀ uri s e s', geocode net uri s = (Raise e, s') →
       lookup_cache s' = lookup_cache s ∧ top1_cache s' = top1_cache s
       ∧ geocode_cache s' = geocode_cache s ∧ geocode_cache s' !! uri = None).
Proof.
  split; [|split].
  - intros k s e s' Hc.
    assert (lookup_cache s' = lookup_cache s ∧ lookup_cache s !! k = None) as [Heq Hk].
    { eapply (cache_Raise_table lookup_cache store_lookup); [|exact Hc].
      by intros o1 s1 ->%dbpedia_lookup_body_frame. }
    rewrite (dbpedia_lookup_top1_cache _ _ _ _ _ Hc),
      (dbpedia_lookup_geocode_cache _ _ _ _ Hc), Heq. done.
  - intros k s e s' Hc.
    assert (top1_cache s' = top1_cache s ∧ top1_cache s !! k = None) as [Heq Hk].
    { eapply (cache_Raise_table top1_cache store_top1); [|exact Hc].
      intros o1 s1 Hb. by apply dbpedia_top1_body_frame in Hb as (? & _). }
    rewrite (dbpedia_top1_geocode_cache _ _ _ _ Hc), Heq. done.
  - intros k s e s' Hc.
    assert (geocode_cache s' = geocode_cache s ∧ geocode_cache s !! k = None) as [Heq Hk].
    { eapply (cache_Raise_table geocode_cache store_geocode); [|exact Hc].
      by intros o1 s1 ->%geocode_body_frame. }
    destruct (geocode_other_caches _ _ _ _ Hc) as [-> ->]. rewrite Heq. done.
Qed.

(* --------------------------------------------------------------------- *)
(* Running again                                                            *)
(* --------------------------------------------------------------------- *)

Lemma resolution_replay toponyme s c s1 s2 :
  resolution net toponyme s = (Ret c, s1) → extends s1 s2 →
  resolution net toponyme s2 = (Ret c, s2).
Proof.
  unfold resolution, bind.
  destruct (dbpedia_top1 net toponyme s) as [[u|e] sa] eqn:Ht; [|done].
  destruct (negb (str_bool u)) eqn:Hb.
  - intros [= <- <-] Hext.
    rewrite (dbpedia_top1_replay _ _ _ _ _ _ Ht Hext). by rewrite Hb.
  - intros Hg Hext.
    rewrite (dbpedia_top1_replay _ _ _ _ _ s2 Ht
               (extends_trans _ _ _ (geocode_extends _ _ _ _ _ Hg) Hext)).
    rewrite Hb. exact (geocode_replay _ _ _ _ _ _ Hg Hext).
Qed.

Lemma count_table_entry_replay kv s r s1 s2 :
  count_table_entry net kv s = (Ret r, s1) → extends s1 s2 →
  count_table_entry net kv s2 = (Ret r, s2).
Proof.
  unfold count_table_entry, bind.
  destruct (dbpedia_top1 net kv.1 s) as [[u1|e] sa] eqn:Ht1; [|done].
  destruct (dbpedia_top1 net kv.1 sa) as [[u2|e] sb] eqn:Ht2; [|done].
  destruct (geocode net u2 sb) as [[c|e] sc] eqn:Hg; [|done].
  intros [= <- <-] Hext.
  pose proof (geocode_extends _ _ _ _ _ Hg) as Hbc.
  pose proof (dbpedia_top1_extends _ _ _ _ _ Ht2) as Hab.
  rewrite (dbpedia_top1_replay _ _ _ _ _ s2 Ht1
             (extends_trans _ _ _ Hab (extends_trans _ _ _ Hbc Hext))).
  rewrite (dbpedia_top1_replay _ _ _ _ _ s2 Ht2 (extends_trans _ _ _ Hbc Hext)).
  by rewrite (geocode_replay _ _ _ _ _ _ Hg Hext).
Qed.

Lemma mapM_Ret_cons {A B} (f : A → M B) x l s ys s' :
  mapM f (x :: l) s = (Ret ys, s') →
  ∃ y sa ys', f x s = (Ret y, sa) ∧ mapM f l sa = (Ret ys', s') ∧ ys = y :: ys'.
Proof.
  cbn [mapM]. unfold bind, ret.
  destruct (f x s) as [[y|e] sa]; [|done].
  destruct (mapM f l sa) as [[ys'|e] sb] eqn:Hl; [|done].
  intros [= <- <-]. by exists y, sa, ys'.
Qed.

Lemma mapM_replay {A B} (f : A → M B) l :
  (∀ x s o s', f x s = (o, s') → extends s s') →
  (∀ x s y s1 s2, f x s = (Ret y, s1) → extends s1 s2 → f x s2 = (Ret y, s2)) →
  ∀ s ys s1 s2, mapM f l s = (Ret ys, s1) → extends s1 s2 →
                mapM f l s2 = (Ret ys, s2).
Proof.
  intros Hext Hrep. induction l as [|x l IH]; intros s ys s1 s2.
  - by intros [= <- <-] _.
  - intros (y & sa & ys' & Hx & Hl & ->)%mapM_Ret_cons H12.
    pose proof (mapM_extends f l Hext _ _ _ Hl) as Ha1.
    cbn [mapM]. unfold bind, ret.
    rewrite (Hrep _ _ _ _ s2 Hx (extends_trans _ _ _ Ha1 H12)).
    by rewrite (IH _ _ _ _ Hl H12).
Qed.

Lemma count_table_replay loc s df s1 s2 :
  count_table net loc s = (Ret df, s1) → extends s1 s2 →
  count_table net loc s2 = (Ret df, s2).
Proof.
  intros (rows & Hrows & ->)%count_table_Ret Hext. unfold count_table.
  erewrite bind_Ret; [done|].
  eapply mapM_replay; [| |exact Hrows|exact Hext].
  - apply count_table_entry_extends.
  - apply count_table_entry_replay.
Qed.

(** A run of fetch_and_map that returned is replayed by every later run
    on the same occurrences: the same coordinate list and the same table,
    and the state is left as it is, so no request is issued. *)
Theorem fetch_and_map_replay loc s out s1 s2 :
  fetch_and_map net loc s = (Ret out, s1) → extends s1 s2 →
  fetch_and_map net loc s2 = (Ret out, s2).
Proof.
  unfold fetch_and_map, bind at 1.
  destruct (mapM (resolution net) loc s) as [[cs|e] sa] eqn:Hcs; [|done].
  unfold bind at 1.
  destruct (count_table net loc sa) as [[df|e] sb] eqn:Hdf; [|done].
  intros [= <- <-] Hext.
  pose proof (count_table_extends _ _ _ _ _ Hdf) as Hab.
  assert (mapM (resolution net) loc s2 = (Ret cs, s2)) as Hcs2.
  { eapply mapM_replay; [| |exact Hcs|exact (extends_trans _ _ _ Hab Hext)].
    - apply resolution_extends.
    - apply resolution_replay. }
  rewrite (bind_Ret _ _ _ _ _ Hcs2).
  by rewrite (bind_Ret _ _ _ _ _ (count_table_replay _ _ _ _ _ Hdf Hext)).
Qed.

(* --------------------------------------------------------------------- *)
(* One coordinate per occurrence                                            *)
(* --------------------------------------------------------------------- *)





(* --------------------------------------------------------------------- *)
(* No occurrence                                                            *)
(* --------------------------------------------------------------------- *)

Lemma loc_of_ents_nil ents :
  (∀ e, e ∈ ents → label_ e ≠ "LOC") → loc_of_ents ents = [].
Proof.
  intros Hno. unfold loc_of_ents. induction ents as [|e ents IH]; [done|].
  cbn. destruct (String.eqb (label_ e) "LOC") eqn:Heq.
  - apply String.eqb_eq in Heq. destruct (Hno e); [by left|done].
  - apply IH. intros e' He'. apply Hno. by right.
Qed.

(** When no entity of the document is labelled LOC, fetch_and_map returns
    an empty coordinate list and an empty table and leaves the state as
    it is: no request is issued and nothing raises. *)
Theorem fetch_and_map_no_location ents s :
  (∀ e, e ∈ ents → label_ e ≠ "LOC") →
  fetch_and_map net (loc_of_ents ents) s = (Ret ([], []), s).
Proof.
  intros ->%loc_of_ents_nil.
  unfold fetch_and_map, count_table, bind, ret. cbn.
  by rewrite (proj1 (Permutation_nil_r _) (sort_values_desc_perm _ occs [])).
Qed.

(* --------------------------------------------------------------------- *)
(* The rows of the table                                                    *)
(* --------------------------------------------------------------------- *)

Lemma List_filter_sublist {A} (f : A → bool) (l : list A) :
  List.filter f l `sublist_of` l.
Proof.
  induction l as [|x l IH]; cbn; [done|].
  destruct (f x); [by apply sublist_skip|by apply sublist_cons].
Qed.

Lemma length_le_sum_list (l : list nat) :
  (∀ n, n ∈ l → 1 ≤ n) → length l ≤ sum_list l.
Proof.
  induction l as [|n l IH]; cbn; [done|]. intros Hl.
  pose proof (Hl n (list_elem_of_here _ _)).
  assert (length l ≤ sum_list l); [|lia].
  apply IH. intros m Hm. apply Hl. by right.
Qed.

Lemma length_Counter loc : length (Counter loc) ≤ length loc.
Proof.
  destruct (Counter_spec loc) as (_ & _ & Hpos & Hsum).
  rewrite <- Hsum, <- (length_fmap snd (Counter loc)).
  apply length_le_sum_list. intros n ([k n'] & -> & Hin)%list_elem_of_fmap.
  by apply (Hpos k).
Qed.

(** The row of an entry holds what the two caches hold from then on. *)
Lemma count_table_entry_cached kv s r s1 :
  count_table_entry net kv s = (Ret r, s1) →
  (index r, occs r) = kv
  ∧ ∀ s2, extends s1 s2 →
      dbpedia_top1 net (index r) s2 = (Ret (db_pedia r), s2)
      ∧ geocode net (db_pedia r) s2 = (Ret (coordinates r), s2).
Proof.
  unfold count_table_entry, bind.
  destruct (dbpedia_top1 net kv.1 s) as [[u1|e] sa] eqn:Ht1; [|done].
  rewrite (dbpedia_top1_replay _ _ _ _ _ _ Ht1 (extends_refl sa)).
  destruct (geocode net u1 sa) as [[c|e] sc] eqn:Hg; [|done].
  intros [= <- <-]. cbn. split; [by destruct kv|].
  intros s2 Hext. split.
  - exact (dbpedia_top1_replay _ _ _ _ _ _ Ht1
             (extends_trans _ _ _ (geocode_extends _ _ _ _ _ Hg) Hext)).
  - exact (geocode_replay _ _ _ _ _ _ Hg Hext).
Qed.

Lemma mapM_count_table_entries l s rows s' :
  mapM (count_table_entry net) l s = (Ret rows, s') →
  (λ r, (index r, occs r)) <$> rows = l
  ∧ ∀ r, r ∈ rows →
      dbpedia_top1 net (index r) s' = (Ret (db_pedia r), s')
      ∧ geocode net (db_pedia r) s' = (Ret (coordinates r), s').
Proof.
  revert s rows. induction l as [|kv l IH]; intros s rows.
  - intros [= <- <-]. split; [done|]. by intros r ?%elem_of_nil.
  - intros (r0 & sa & rows' & Hkv & Hl & ->)%mapM_Ret_cons.
    destruct (count_table_entry_cached _ _ _ _ Hkv) as [Hfields Hcached].
    destruct (IH _ _ Hl) as [Hmap Hrows].
    split; [cbn; by rewrite Hfields, Hmap|].
    intros r [->|Hr]%elem_of_cons; [|by apply Hrows].
    apply Hcached. exact (mapM_extends _ _ (count_table_entry_extends net) _ _ _ Hl).
Qed.

(** The table that count_table returns has at most one row per toponym
    and no more rows than occurrences.  A row is indexed by a toponym of
    the occurrences, counts its occurrences (at least one), has an entity
    reference, and holds the reference and the coordinate that
    dbpedia_top1 and geocode return from the final state on.  Every
    toponym whose reference is not None has its row. *)
Theorem count_table_rows loc s df s' :
  count_table net loc s = (Ret df, s') →
  NoDup (index <$> df)
  ∧ length df ≤ length loc
  ∧ (∀ r, r ∈ df →
       index r ∈ loc ∧ occs r = occurrences (index r) loc ∧ 1 ≤ occs r
       ∧ is_Some (db_pedia r)
       ∧ dbpedia_top1 net (index r) s' = (Ret (db_pedia r), s')
       ∧ geocode net (db_pedia r) s' = (Ret (coordinates r), s'))
  ∧ (∀ toponyme u, toponyme ∈ loc →
       dbpedia_top1 net toponyme s' = (Ret (Some u), s') →
       ∃ r, r ∈ df ∧ index r = toponyme ∧ db_pedia r = Some u).
Proof.
  intros (rows & Hrows & ->)%count_table_Ret.
  destruct (mapM_count_table_entries _ _ _ _ Hrows) as [Hmap Hcached].
  destruct (Counter_spec loc) as (HND & Hiff & Hpos & _).
  assert (Hkeys : index <$> rows = (Counter loc).*1).
  { rewrite <- Hmap, <- list_fmap_compose. done. }
  assert (Hin : ∀ r, r ∈ sort_values_desc occs (dropna rows)
                     ↔ r ∈ rows ∧ is_Some (db_pedia r)).
  { intros r. rewrite sort_values_desc_perm. unfold dropna.
    rewrite list_elem_of_In, filter_In, dropna_keeps, bool_decide_eq_true.
    by rewrite <- list_elem_of_In. }
  assert (Hentry : ∀ r, r ∈ rows → (index r, occs r) ∈ Counter loc).
  { intros r Hr. rewrite <- Hmap.
    by apply (list_elem_of_fmap_2 (λ r, (index r, occs r))). }
  split; [|split; [|split]].
  - rewrite sort_values_desc_perm.
    eapply sublist_NoDup; [by rewrite <- Hkeys in HND|].
    apply fmap_sublist, List_filter_sublist.
  - rewrite sort_values_desc_perm.
    etrans; [apply sublist_length, List_filter_sublist|].
    rewrite <- (length_fmap (λ r, (index r, occs r)) rows), Hmap.
    apply length_Counter.
  - intros r [Hr Hsome]%Hin.
    pose proof (Hentry r Hr) as Hc. pose proof (Hpos _ _ Hc).
    apply Hiff in Hc as [Hloc Hocc].
    destruct (Hcached r Hr) as [Ht Hg]. done.
  - intros k u Hk Ht.
    assert ((k, occurrences k loc) ∈ Counter loc) as Hc by by apply Hiff.
    rewrite <- Hmap in Hc. apply list_elem_of_fmap in Hc as (r & [= Hi Ho] & Hr).
    destruct (Hcached r Hr) as [Ht' _]. rewrite <- Hi, Ht in Ht'.
    injection Ht' as Hu. exists r. split; [|done].
    apply Hin. split; [done|]. by rewrite <- Hu.
Qed.

(* --------------------------------------------------------------------- *)
(* Answers with a missing key                                               *)
(* --------------------------------------------------------------------- *)

(** An answer of the lookup service without "docs", or with an empty
    list, is "no candidate": dbpedia_top1 (with the toponym in neither
    cache) returns None, and both caches keep that. *)
Theorem dbpedia_top1_without_docs toponyme s j :
  top1_cache s !! toponyme = None → lookup_cache s !! toponyme = None →
  lookup_service net (requests s) (lookup_url toponyme) = Some j →
  docs j = None ∨ docs j = Some [] →
  dbpedia_top1 net toponyme s
    = (Ret None,
       store_top1 toponyme None
         (store_lookup toponyme [] (log_request (GET (lookup_url toponyme)) s))).
Proof.
  intros Ht Hl Hnet Hdocs.
  assert (default [] (docs j) = []) as Hd by (by destruct Hdocs as [->| ->]).
  rewrite dbpedia_top1_miss by done. unfold dbpedia_top1_body.
  assert (dbpedia_lookup net toponyme s
          = (Ret [], store_lookup toponyme [] (log_request (GET (lookup_url toponyme)) s)))
    as Hcall.
  { apply cache_miss_Ret; [done|].
    by rewrite dbpedia_lookup_body_spec, Hnet, Hd. }
  by rewrite (bind_Ret _ _ _ _ _ Hcall).
Qed.

(** An answer of the SPARQL service without "results", without
    "bindings", or with an empty list of bindings gives (None, None),
    which geocode (called with a key not in its cache) stores. *)
Theorem geocode_without_bindings uri s j :
  geocode_cache s !! uri = None →
  sparql_service net (requests s) (sparql_query uri) = Some j →
  results j = None
  ∨ (∃ r, results j = Some r ∧ (bindings r = None ∨ bindings r = Some [])) →
  geocode net uri s =
    (Ret (None, None),
     store_geocode uri (None, None) (log_request (POST sparql_url (sparql_query uri)) s)).
Proof.
  intros Hk Hj Hmiss. apply (geocode_no_binding _ _ _ j); [done..|].
  unfold get_bindings. destruct Hmiss as [->|(r & -> & [->| ->])]; done.
Qed.

(* --------------------------------------------------------------------- *)
(* Invariants of the caches                                                 *)
(* --------------------------------------------------------------------- *)

Lemma bind_preserves {A B} (P : state → Prop) (m : M A) (k : A → M B) s o s' :
  P s →
  (∀ o1 s1, P s → m s = (o1, s1) → P s1) →
  (∀ a s1 o2 s2, P s1 → k a s1 = (o2, s2) → P s2) →
  bind m k s = (o, s') → P s'.
Proof.
  intros HP Hm Hk. unfold bind. destruct (m s) as [[a|e] s1] eqn:Hms.
  - intros Hka. eapply Hk; [|exact Hka]. eauto.
  - intros [= <- <-]. eauto.
Qed.

Lemma mapM_preserves {A B} (P : state → Prop) (f : A → M B) l :
  (∀ x s o s', P s → f x s = (o, s') → P s') →
  ∀ s o s', P s → mapM f l s = (o, s') → P s'.
Proof.
  intros Hf. induction l as [|x l IH]; intros s o s' HP.
  - by intros [= <- <-].
  - cbn [mapM]. apply bind_preserves; [done|by eauto|].
    intros y s1 o2 s2 HP1. apply bind_preserves; [done|by eauto|].
    by intros ys s3 o3 s4 HP3 [= <- <-].
Qed.

(** Preservation by the functions above the three cached ones. *)
Lemma fetch_and_map_preserves (P : state → Prop) :
  (∀ toponyme s o s', P s → dbpedia_top1 net toponyme s = (o, s') → P s') →
  (∀ uri s o s', P s → geocode net uri s = (o, s') → P s') →
  (∀ toponyme s o s', P s → resolution net toponyme s = (o, s') → P s')
  ∧ (∀ loc s o s', P s → count_table net loc s = (o, s') → P s')
  ∧ (∀ loc s o s', P s → fetch_and_map net loc s = (o, s') → P s').
Proof.
  intros Ht Hg.
  assert (Hres : ∀ toponyme s o s', P s → resolution net toponyme s = (o, s') → P s').
  { intros t s o s' HP. unfold resolution.
    apply bind_preserves; [done|by eauto|].
    intros u s1 o2 s2 HP1. destruct (negb (str_bool u)); [by intros [= <- <-]|eauto]. }
  assert (Hentry : ∀ kv s o s', P s → count_table_entry net kv s = (o, s') → P s').
  { intros kv s o s' HP. unfold count_table_entry.
    apply bind_preserves; [done|by eauto|]. intros u1 s1 o1 s1' HP1.
    apply bind_preserves; [done|by eauto|]. intros u2 s2 o2 s2' HP2.
    apply bind_preserves; [done|by eauto|]. by intros c s3 o3 s3' HP3 [= <- <-]. }
  assert (Hct : ∀ loc s o s', P s → count_table net loc s = (o, s') → P s').
  { intros loc s o s' HP. unfold count_table.
    apply bind_preserves; [done| |by intros rows s1 o1 s1' HP1 [= <- <-]].
    intros o1 s1 _. by apply mapM_preserves. }
  split; [done|]. split; [done|].
  intros loc s o s' HP. unfold fetch_and_map.
  apply bind_preserves; [done| |].
  - intros o1 s1 _. by apply mapM_preserves.
  - intros cs s1 o1 s1' HP1. apply bind_preserves; [done|by eauto|].
    by intros df s2 o2 s2' HP2 [= <- <-].
Qed.

Lemma or_None_nonzero (x : float) : nonzero_component (or_None x).
Proof.
  unfold nonzero_component, or_None.
  destruct (float_bool x) eqn:Hx; [|done]. by intros f [= <-].
Qed.

Lemma geocode_body_nonzero uri s c s' :
  geocode_body net uri s = (Ret c, s') → nonzero_coord c.
Proof.
  unfold geocode_body, bind, http_post_json.
  destruct (sparql_service _ _ _) as [j|]; [|done].
  destruct (get_bindings j) as [|b bs].
  - intros [= <- <-]. by split.
  - unfold py_float, raise, ret.
    destruct (get_value b "lat") as [sl|]; [|done].
    destruct (float_of_str sl) as [x|]; [|done].
    destruct (get_value b "long") as [so|]; [|done].
    destruct (float_of_str so) as [y|]; [|done].
    intros [= <- <-]. split; apply or_None_nonzero.
Qed.

Lemma geocode_nonzero uri s o s' :
  geocode_cache_nonzero s → geocode net uri s = (o, s') →
  geocode_cache_nonzero s' ∧ ∀ c, o = Ret c → nonzero_coord c.
Proof.
  intros Hinv. unfold geocode, cache.
  destruct (geocode_cache s !! uri) as [c0|] eqn:Hk.
  - intros [= <- <-]. split; [done|]. intros c [= <-]. by eapply Hinv.
  - destruct (geocode_body net uri s) as [[v|e] s1] eqn:Hb.
    + pose proof (geocode_body_nonzero _ _ _ _ Hb) as Hv.
      apply geocode_body_frame in Hb as ->.
      intros [= <- <-]. split; [|by intros c [= <-]].
      intros uri' c. cbn. rewrite lookup_insert.
      destruct (decide (uri = uri')); [by intros [= <-]|apply Hinv].
    + apply geocode_body_frame in Hb as ->.
      intros [= <- <-]. split; [|done]. exact Hinv.
Qed.

Lemma resolution_nonzero toponyme s o s' :
  geocode_cache_nonzero s → resolution net toponyme s = (o, s') →
  geocode_cache_nonzero s' ∧ ∀ c, o = Ret c → nonzero_coord c.
Proof.
  intros Hinv. unfold resolution, bind.
  destruct (dbpedia_top1 net toponyme s) as [[u|e] s1] eqn:Ht.
  - assert (geocode_cache_nonzero s1) as Hinv1.
    { unfold geocode_cache_nonzero. by rewrite (dbpedia_top1_geocode_cache _ _ _ _ Ht). }
    destruct (negb (str_bool u)).
    + intros [= <- <-]. split; [done|]. intros c [= <-]. by split.
    + by apply geocode_nonzero.
  - intros [= <- <-]. split; [|done].
    unfold geocode_cache_nonzero. by rewrite (dbpedia_top1_geocode_cache _ _ _ _ Ht).
Qed.

Lemma mapM_resolution_nonzero loc s cs s' :
  geocode_cache_nonzero s → mapM (resolution net) loc s = (Ret cs, s') →
  Forall nonzero_coord cs.
Proof.
  revert s cs. induction loc as [|t loc IH]; intros s cs Hinv.
  - by intros [= <- <-].
  - intros (c & sa & cs' & Ht & Hl & ->)%mapM_Ret_cons.
    destruct (resolution_nonzero _ _ _ _ Hinv Ht) as [Hinva Hc].
    constructor; [by apply Hc|]. by eapply IH.
Qed.

Lemma valid_iff_present (c : coord) :
  nonzero_coord c →
  opt_float_bool c.1 && opt_float_bool c.2 = bool_decide (is_Some c.1 ∧ is_Some c.2).
Proof.
  destruct c as [lat long]. intros [Hlat Hlong]. cbn in *.
  destruct lat as [x|], long as [y|]; cbn.
  - by rewrite (Hlat x), (Hlong y).
  - by rewrite andb_false_r.
  - done.
  - done.
Qed.

Lemma coordonnees_valides_nonzero (cs : list coord) :
  Forall nonzero_coord cs →
  coordonnees_valides cs
  = List.filter (λ c, bool_decide (is_Some c.1 ∧ is_Some c.2)) cs.
Proof.
  unfold coordonnees_valides. induction 1 as [|c cs Hc _ IH]; [done|].
  cbn [List.filter]. by rewrite IH, (valid_iff_present c Hc).
Qed.

(** No zero is ever returned: starting from a state whose geocode cache
    holds no zero component (the empty state is one), every run of
    fetch_and_map keeps the cache so, every coordinate that geocode or
    resolution returns has components that are None or floats other than
    zero, and the filter [if lat and long] therefore keeps exactly the
    coordinates with both components present. *)
Theorem zero_is_never_returned :
  geocode_cache_nonzero (float := float) empty_state
  ∧ (∀ loc s o s', geocode_cache_nonzero s →
       fetch_and_map net loc s = (o, s') → geocode_cache_nonzero s')
  ∧ (∀ uri s c s', geocode_cache_nonzero s →
       geocode net uri s = (Ret c, s') → nonzero_coord c)
  ∧ (∀ toponyme s c s', geocode_cache_nonzero s →
       resolution net toponyme s = (Ret c, s') → nonzero_coord c)
  ∧ (∀ loc s cs s', geocode_cache_nonzero s →
       mapM (resolution net) loc s = (Ret cs, s') →
       coordonnees_valides cs
       = List.filter (λ c, bool_decide (is_Some c.1 ∧ is_Some c.2)) cs).
Proof.
  split; [|split; [|split; [|split]]].
  - by intros uri c ?.
  - apply (fetch_and_map_preserves geocode_cache_nonzero).
    + intros t s o s' Hinv Ht. unfold geocode_cache_nonzero.
      by rewrite (dbpedia_top1_geocode_cache _ _ _ _ Ht).
    + intros uri s o s' Hinv Hg. by destruct (geocode_nonzero _ _ _ _ Hinv Hg).
  - intros uri s c s' Hinv Hg. by apply (geocode_nonzero _ _ _ _ Hinv Hg).
  - intros t s c s' Hinv Hr. by apply (resolution_nonzero _ _ _ _ Hinv Hr).
  - intros loc s cs s' Hinv Hcs. apply coordonnees_valides_nonzero.
    by eapply mapM_resolution_nonzero.
Qed.

Lemma top1_cache_coherent_weaken s s' :
  top1_cache_coherent s → top1_cache s' = top1_cache s →
  lookup_cache s ⊆ lookup_cache s' → top1_cache_coherent s'.
Proof.
  intros Hinv Ht Hl t u. rewrite Ht. intros (r & Hr & Hu)%Hinv.
  exists r. split; [|done]. by eapply lookup_weaken.
Qed.

Lemma dbpedia_lookup_coherent toponyme s o s' :
  top1_cache_coherent s → dbpedia_lookup net toponyme s = (o, s') →
  top1_cache_coherent s'.
Proof.
  intros Hinv Hl. eapply top1_cache_coherent_weaken; [done| |].
  - exact (dbpedia_lookup_top1_cache _ _ _ _ _ Hl).
  - by destruct (dbpedia_lookup_extends _ _ _ _ _ Hl) as (? & _).
Qed.

Lemma dbpedia_top1_coherent toponyme s o s' :
  top1_cache_coherent s → dbpedia_top1 net toponyme s = (o, s') →
  top1_cache_coherent s'.
Proof.
  intros Hinv. unfold dbpedia_top1, cache.
  destruct (top1_cache s !! toponyme) as [v0|] eqn:Hk; [by intros [= <- <-]|].
  unfold dbpedia_top1_body, bind.
  destruct (dbpedia_lookup net toponyme s) as [[r|e] s1] eqn:Hl.
  - pose proof (dbpedia_lookup_coherent _ _ _ _ Hinv Hl) as Hinv1.
    assert (lookup_cache s1 !! toponyme = Some r) as Hr.
    { eapply (cache_Ret_stored lookup_cache store_lookup); [|exact Hl].
      intros. apply lookup_insert_eq. }
    assert (∀ v, top1_of r = Some v → top1_cache_coherent (store_top1 toponyme v s1)) as Hstore.
    { intros v Hv t u. cbn. rewrite lookup_insert.
      destruct (decide (toponyme = t)) as [<-|?]; [|apply Hinv1].
      intros [= <-]. by exists r. }
    destruct r as [|d r']; [intros [= <- <-]; by apply Hstore|].
    destruct (d !! "resource") as [[|u us]|] eqn:Hd; intros [= <- <-]; try done.
    apply Hstore. cbn. by rewrite Hd.
  - intros [= <- <-]. exact (dbpedia_lookup_coherent _ _ _ _ Hinv Hl).
Qed.

Lemma geocode_coherent uri s o s' :
  top1_cache_coherent s → geocode net uri s = (o, s') → top1_cache_coherent s'.
Proof.
  intros Hinv Hg. destruct (geocode_other_caches _ _ _ _ Hg) as [Hl Ht].
  eapply top1_cache_coherent_weaken; [done..|]. by rewrite Hl.
Qed.

(** The cache of dbpedia_top1 agrees with the cache of dbpedia_lookup:
    starting from a state where every reference cached for a toponym is
    the one drawn from the lookup result cached for that toponym (None
    for an empty result, the first resource of the first document
    otherwise), as in the empty state, every function keeps it so. *)
Theorem top1_cache_stays_coherent :
  top1_cache_coherent (float := float) empty_state
  ∧ (∀ toponyme s o s', top1_cache_coherent s →
       dbpedia_lookup net toponyme s = (o, s') → top1_cache_coherent s')
  ∧ (∀ toponyme s o s', top1_cache_coherent s →
       dbpedia_top1 net toponyme s = (o, s') → top1_cache_coherent s')
  ∧ (∀ uri s o s', top1_cache_coherent s →
       geocode net uri s = (o, s') → top1_cache_coherent s')
  ∧ (∀ loc s o s', top1_cache_coherent s →
       fetch_and_map net loc s = (o, s') → top1_cache_coherent s').
Proof.
  split; [|split; [|split; [|split]]].
  - by intros t u ?.
  - apply dbpedia_lookup_coherent.
  - apply dbpedia_top1_coherent.
  - apply geocode_coherent.
  - apply (fetch_and_map_preserves top1_cache_coherent).
    + apply dbpedia_top1_coherent.
    + apply geocode_coherent.
Qed.

(** Every function of the module takes the process to a later state: no
    entry of a cache is removed or changed, and the log of requests only
    grows at its end. *)
Theorem state_only_grows :
  (∀ toponyme s o s', dbpedia_lookup net toponyme s = (o, s') → extends s s')
  ∧ (∀ toponyme s o s', dbpedia_top1 net toponyme s = (o, s') → extends s s')
  ∧ (∀ uri s o s', geocode net uri s = (o, s') → extends s s')
  ∧ (∀ toponyme s o s', resolution net toponyme s = (o, s') → extends s s')
  ∧ (∀ loc s o s', count_table net loc s = (o, s') → extends s s')
  ∧ (∀ loc s o s', fetch_and_map net loc s = (o, s') → extends s s').
Proof.
  split; [|split; [|split; [|split; [|split]]]].
  - apply dbpedia_lookup_extends.
  - apply dbpedia_top1_extends.
  - apply geocode_extends.
  - apply resolution_extends.
  - apply count_table_extends.
  - apply fetch_and_map_extends.
Qed.

End StateProperties.

(* --------------------------------------------------------------------- *)
(* Strings of the requests                                                  *)
(* --------------------------------------------------------------------- *)

Section StringProperties.
Local Open Scope nat_scope.

Implicit Types (s t p : string).

Lemma string_app_cons a s t : String a s +:+ t = String a (s +:+ t).
Proof. reflexivity. Qed.

Lemma string_app_nil_l s : EmptyString +:+ s = s.
Proof. reflexivity. Qed.

Lemma string_app_nil_r s : s +:+ EmptyString = s.
Proof.
  induction s as [|a s IH]; [done|]. by rewrite string_app_cons, IH.
Qed.

Lemma string_app_assoc s t p : (s +:+ t) +:+ p = s +:+ (t +:+ p).
Proof.
  induction s as [|a s IH]; [done|]. by rewrite !string_app_cons, IH.
Qed.

Lemma string_app_length s t : String.length (s +:+ t) = String.length s + String.length t.
Proof.
  induction s as [|a s IH]; [done|]. rewrite string_app_cons. cbn. by rewrite IH.
Qed.

Lemma string_app_inj_r s1 s2 t : s1 +:+ t = s2 +:+ t → s1 = s2.
Proof.
  revert s2. induction s1 as [|a s1 IH]; intros [|b s2] Heq.
  - done.
  - apply (f_equal String.length) in Heq.
    rewrite string_app_nil_l, string_app_cons in Heq. cbn in Heq.
    rewrite string_app_length in Heq. lia.
  - apply (f_equal String.length) in Heq.
    rewrite string_app_nil_l, string_app_cons in Heq. cbn in Heq.
    rewrite string_app_length in Heq. lia.
  - rewrite !string_app_cons in Heq. injection Heq as -> Heq. f_equal. by apply IH.
Qed.

Lemma endswith_app p suffix : endswith (p +:+ suffix) suffix = true.
Proof.
  induction p as [|a p IH].
  - rewrite string_app_nil_l. destruct suffix; cbn; [done|].
    by rewrite Ascii.eqb_refl, String.eqb_refl.
  - rewrite string_app_cons. cbn [endswith]. rewrite IH. apply orb_true_r.
Qed.

Lemma endswith_spec s suffix :
  endswith s suffix = true ↔ ∃ p, s = p +:+ suffix.
Proof.
  split; [|intros [p ->]; apply endswith_app].
  induction s as [|a s IH].
  - cbn [endswith]. rewrite orb_false_r. intros <-%String.eqb_eq. by exists EmptyString.
  - cbn [endswith]. intros [->%String.eqb_eq|Hs]%orb_true_iff.
    + by exists EmptyString.
    + destruct (IH Hs) as [p ->]. by exists (String a p).
Qed.

Lemma texteBrut_url_idem url :
  texteBrut_url (texteBrut_url url) = texteBrut_url url.
Proof.
  unfold texteBrut_url at 2 3. destruct (endswith url ".texteBrut") eqn:Hu.
  - unfold texteBrut_url. by rewrite Hu.
  - unfold texteBrut_url. by rewrite endswith_app.
Qed.

(** fetch_gallica requests a url that ends in ".texteBrut": the url it
    was given when that one ends so already, the url followed by
    ".texteBrut" otherwise; doing it twice changes nothing more. *)
Theorem texteBrut_url_normalises url :
  (∃ p, texteBrut_url url = p +:+ ".texteBrut")
  ∧ (endswith url ".texteBrut" = true → texteBrut_url url = url)
  ∧ (endswith url ".texteBrut" = false → texteBrut_url url = url +:+ ".texteBrut")
  ∧ texteBrut_url (texteBrut_url url) = texteBrut_url url
  ∧ texteBrut_url (url +:+ ".texteBrut") = url +:+ ".texteBrut".
Proof.
  assert (Hfix : ∀ u, endswith u ".texteBrut" = true → texteBrut_url u = u).
  { intros u Hu. unfold texteBrut_url. by rewrite Hu. }
  assert (Hend : endswith (texteBrut_url url) ".texteBrut" = true).
  { unfold texteBrut_url. destruct (endswith url ".texteBrut") eqn:Hu; [done|].
    apply endswith_app. }
  split; [by apply endswith_spec|]. split; [apply Hfix|]. split; [|split].
  - intros Hu. unfold texteBrut_url. by rewrite Hu.
  - by apply Hfix.
  - apply Hfix, endswith_app.
Qed.

(** Two toponyms are looked up at the same url only when they are the
    same toponym, and two entity references are queried with the same
    SPARQL query only when they are the same reference; the query for
    the reference None is the query for the string None. *)
Theorem requests_identify_keys :
  (∀ t1 t2, lookup_url t1 = lookup_url t2 → t1 = t2)
  ∧ (∀ u1 u2, sparql_query (Some u1) = sparql_query (Some u2) → u1 = u2)
  ∧ sparql_query None = sparql_query (Some "None").
Proof.
  split; [|split; [|done]].
  - intros t1 t2 Heq. unfold lookup_url in Heq.
    apply (inj (String.app _)) in Heq. by apply string_app_inj_r in Heq.
  - intros u1 u2 Heq. unfold sparql_query in Heq. cbn [py_str default] in Heq.
    apply (inj (String.app _)) in Heq. by apply string_app_inj_r in Heq.
Qed.

End StringProperties.

(* --------------------------------------------------------------------- *)
(* fetch_gallica                                                            *)
(* --------------------------------------------------------------------- *)

Section GallicaProperties.
Context {float : Type} `{!PyFloat float}.

Implicit Types (content header next : soup) (t : tag).

Lemma next_after_first_None name content :
  next_after_first name content = None ↔ ∀ t, t ∈ content → tag_name t ≠ name.
Proof.
  induction content as [|t0 content IH]; cbn.
  - split; [by intros _ t ?%elem_of_nil|done].
  - destruct (String.eqb (tag_name t0) name) eqn:Heq.
    + apply String.eqb_eq in Heq. split; [done|].
      intros Hno. destruct (Hno t0); [by left|done].
    + apply String.eqb_neq in Heq. rewrite IH. split.
      * intros Hno t [->|?]%elem_of_cons; [done|by apply Hno].
      * intros Hno t Ht. apply Hno. by right.
Qed.

Lemma next_after_first_app name header t next :
  (∀ t', t' ∈ header → tag_name t' ≠ name) → tag_name t = name →
  next_after_first name (header ++ t :: next) = Some next.
Proof.
  intros Hno Ht. induction header as [|t0 header IH]; cbn.
  - by rewrite Ht, String.eqb_refl.
  - assert (tag_name t0 ≠ name) as Hne%String.eqb_neq by (apply Hno; by left).
    rewrite Hne. apply IH. intros t' Ht'. apply Hno. by right.
Qed.

Lemma foldl_text_app (f : tag → string) (l : list tag) (acc : string) :
  foldl (λ text p, text +:+ f p) acc l
  = acc +:+ foldl (λ text p, text +:+ f p) EmptyString l.
Proof.
  revert acc. induction l as [|p l IH]; intros acc; cbn [foldl].
  - by rewrite string_app_nil_r.
  - rewrite IH, (IH (EmptyString +:+ f p)), string_app_nil_l.
    by rewrite string_app_assoc.
Qed.

Lemma paragraphs_text_cons t next :
  paragraphs_text (t :: next)
  = if String.eqb (tag_name t) "p"
    then tag_text t +:+ newline +:+ paragraphs_text next
    else paragraphs_text next.
Proof.
  unfold paragraphs_text. cbn [List.filter].
  destruct (String.eqb (tag_name t) "p"); [|done].
  cbn [foldl]. rewrite foldl_text_app, string_app_nil_l.
  by rewrite string_app_assoc.
Qed.

(** What fetch_gallica makes of the parsed page: it raises IndexError
    exactly when the page has no <hr>; otherwise the tags up to the first
    <hr> (the header that Gallica adds) do not count, and the text is
    made of the text of each later <p>, in order, each followed by a
    newline, any other tag counting for nothing. *)
Theorem gallica_text_after_first_hr :
  (∀ content, gallica_text content = Raise IndexError
     ↔ ∀ t, t ∈ content → tag_name t ≠ "hr")
  ∧ (∀ header t next,
       (∀ t', t' ∈ header → tag_name t' ≠ "hr") → tag_name t = "hr" →
       gallica_text (header ++ t :: next) = Ret (paragraphs_text next))
  ∧ paragraphs_text [] = EmptyString
  ∧ (∀ t next, tag_name t = "p" →
       paragraphs_text (t :: next) = tag_text t +:+ newline +:+ paragraphs_text next)
  ∧ (∀ t next, tag_name t ≠ "p" → paragraphs_text (t :: next) = paragraphs_text next).
Proof.
  split; [|split; [|split; [|split]]].
  - intros content. rewrite <- next_after_first_None. unfold gallica_text.
    by destruct (next_after_first "hr" content).
  - intros header t next Hno Ht. unfold gallica_text.
    by rewrite (next_after_first_app _ _ _ _ Hno Ht).
  - done.
  - intros t next Ht. by rewrite paragraphs_text_cons, Ht.
  - intros t next Ht%String.eqb_neq. by rewrite paragraphs_text_cons, Ht.
Qed.

(** The body of fetch_gallica, read off its definition. *)
Lemma fetch_gallica_body_request page_service url (s : @state float) :
  snd (fetch_gallica_body page_service url s) = log_request (GET (texteBrut_url url)) s
  ∧ fst (fetch_gallica_body page_service url s)
    = match page_service (requests s) (texteBrut_url url) with
      | None => Raise RequestException
      | Some content => gallica_text content
      end
  ∧ fetch_gallica_body page_service (texteBrut_url url) s
    = fetch_gallica_body page_service url s.
Proof.
  unfold fetch_gallica_body.
  assert (texteBrut_url (texteBrut_url url) = texteBrut_url url) as ->
    by apply texteBrut_url_idem.
  by destruct (page_service (requests s) (texteBrut_url url)).
Qed.

(* --------------------------------------------------------------------- *)
(* The lru_cache of fetch_gallica                                           *)
(* --------------------------------------------------------------------- *)

Local Open Scope nat_scope.

Implicit Types (c : list (string * string)) (g : @gallica_state float).

Lemma lru_get_None url c : lru_get url c = None ↔ url ∉ c.*1.
Proof.
  induction c as [|[url' text] c IH]; cbn.
  - split; [intros _; apply not_elem_of_nil|done].
  - rewrite not_elem_of_cons. destruct (decide (url = url')) as [->|Hne].
    + split; [done|]. by intros [? _].
    + rewrite IH. tauto.
Qed.

Lemma lru_remove_absent url c : lru_get url c = None → lru_remove url c = c.
Proof.
  unfold lru_remove. induction c as [|[url' text] c IH]; cbn; [done|].
  destruct (decide (url = url')) as [->|Hne]; [done|].
  intros Hc. rewrite (IH Hc).
  assert (String.eqb url' url = false) as -> by (by apply String.eqb_neq).
  done.
Qed.

Lemma lru_get_remove url c : lru_get url (lru_remove url c) = None.
Proof.
  unfold lru_remove. induction c as [|[url' text] c IH]; cbn; [done|].
  destruct (String.eqb url' url) eqn:Heq; cbn; [done|].
  apply String.eqb_neq in Heq. by rewrite decide_False.
Qed.

Lemma lru_get_sublist url c c' :
  c' `sublist_of` c → lru_get url c = None → lru_get url c' = None.
Proof.
  rewrite !lru_get_None. intros Hsub Hc Hin. apply Hc.
  eapply elem_of_sublist; [exact Hin|]. by apply fmap_sublist.
Qed.

Lemma lru_remove_length url c : length (lru_remove url c) ≤ length c.
Proof. apply sublist_length, List_filter_sublist. Qed.

Lemma lru_remove_hit_length url text c :
  lru_get url c = Some text → S (length (lru_remove url c)) ≤ length c.
Proof.
  unfold lru_remove. induction c as [|[url' text'] c IH]; cbn; [done|].
  destruct (decide (url = url')) as [->|Hne].
  - intros _. rewrite String.eqb_refl. cbn.
    pose proof (lru_remove_length url' c) as Hle. unfold lru_remove in Hle. lia.
  - intros Hc. assert (String.eqb url' url = false) as -> by (by apply String.eqb_neq).
    cbn. specialize (IH Hc). lia.
Qed.

Lemma texteBrut_url_completed url :
  texteBrut_url (url +:+ ".texteBrut") = url +:+ ".texteBrut".
Proof. unfold texteBrut_url. by rewrite endswith_app. Qed.

Lemma texteBrut_url_ne url : url +:+ ".texteBrut" ≠ url.
Proof.
  intros Heq. apply (f_equal String.length) in Heq.
  rewrite string_app_length in Heq. cbn in Heq. lia.
Qed.

(** fetch_gallica with its lru_cache.  The cache never holds more than
    128 pages.  A call for a cached url returns the cached text and
    issues no request; a call for a url that is not cached issues exactly
    one request, the GET of the url completed with ".texteBrut".  A call
    that raises leaves the cache as it was, and a call that returned is
    replayed by the next call for the same url, with the state left as it
    is.  The cache is keyed by the url as given: right after the page of
    a url without ".texteBrut" was fetched, a call with the completed url
    (not cached itself) issues the same GET again. *)
Theorem fetch_gallica_lru_cache page_service url g o g' :
  fetch_gallica page_service url g = (o, g') →
  (length (gallica_cache g) ≤ maxsize → length (gallica_cache g') ≤ maxsize)
  ∧ (∀ text, lru_get url (gallica_cache g) = Some text →
       o = Ret text ∧ process g' = process g)
  ∧ (lru_get url (gallica_cache g) = None →
       requests (process g') = (requests (process g) ++ [GET (texteBrut_url url)])%list)
  ∧ (∀ e, o = Raise e → gallica_cache g' = gallica_cache g)
  ∧ (∀ text, o = Ret text → fetch_gallica page_service url g' = (Ret text, g'))
  ∧ (∀ text, o = Ret text → endswith url ".texteBrut" = false →
       lru_get (url +:+ ".texteBrut") (gallica_cache g) = None →
       requests (process (snd (fetch_gallica page_service (url +:+ ".texteBrut") g')))
       = (requests (process g') ++ [GET (url +:+ ".texteBrut")])%list).
Proof.
  unfold fetch_gallica, lru_cache.
  destruct (lru_get url (gallica_cache g)) as [text0|] eqn:Hget.
  - intros [= <- <-]. cbn [gallica_cache process].
    split; [|split; [|split; [|split; [|split]]]].
    + intros Hlen. pose proof (lru_remove_hit_length _ _ _ Hget). cbn. lia.
    + by intros text [= <-].
    + done.
    + done.
    + intros text [= <-]. cbn [lru_get]. rewrite decide_True by done.
      cbn [lru_remove List.filter fst]. rewrite String.eqb_refl. cbn [negb].
      fold (lru_remove url (lru_remove url (gallica_cache g))).
      by rewrite (lru_remove_absent _ _ (lru_get_remove url (gallica_cache g))).
    + intros text _ Hend Hother.
      assert (lru_get (url +:+ ".texteBrut")
                ((url, text0) :: lru_remove url (gallica_cache g)) = None) as ->.
      { cbn [lru_get]. rewrite decide_False by apply texteBrut_url_ne.
        eapply lru_get_sublist; [apply List_filter_sublist|done]. }
      destruct (fetch_gallica_body_request page_service (url +:+ ".texteBrut") (process g))
        as (Hsnd & _).
      destruct (fetch_gallica_body page_service (url +:+ ".texteBrut") (process g))
        as [[t|e] s1]; cbn in Hsnd; subst s1; cbn;
        by rewrite texteBrut_url_completed.
  - destruct (fetch_gallica_body_request page_service url (process g)) as (Hsnd & _).
    destruct (fetch_gallica_body page_service url (process g)) as [[text|e] s1] eqn:Hbody;
      cbn in Hsnd; subst s1; intros [= <- <-]; cbn [gallica_cache process].
    + split; [|split; [|split; [|split; [|split]]]].
      * intros _. cbn [length]. rewrite length_take. unfold maxsize. lia.
      * done.
      * done.
      * done.
      * intros text' [= <-]. cbn [lru_get]. rewrite decide_True by done.
        cbn [lru_remove List.filter fst]. rewrite String.eqb_refl. cbn [negb].
        fold (lru_remove url (take 127 (gallica_cache g))).
        rewrite lru_remove_absent; [done|].
        eapply lru_get_sublist; [apply sublist_take|done].
      * intros text' _ Hend Hother.
        assert (lru_get (url +:+ ".texteBrut")
                  ((url, text) :: take 127 (gallica_cache g)) = None) as ->.
        { cbn [lru_get]. rewrite decide_False by apply texteBrut_url_ne.
          eapply lru_get_sublist; [apply sublist_take|done]. }
        destruct (fetch_gallica_body_request page_service (url +:+ ".texteBrut")
                    (log_request (GET (texteBrut_url url)) (process g))) as (Hsnd & _).
        destruct (fetch_gallica_body page_service (url +:+ ".texteBrut")
                    (log_request (GET (texteBrut_url url)) (process g)))
          as [[t|e] s1]; cbn in Hsnd; subst s1; cbn;
          by rewrite texteBrut_url_completed.
    + split; [|split; [|split; [|split; [|split]]]]; done.
Qed.

End GallicaProperties.

(* --------------------------------------------------------------------- *)
(* The functions run on concrete answers of the services                    *)
(* --------------------------------------------------------------------- *)

#[local] Existing Instance decimal_float.
#[local] Existing Instance merge_sort_values.

(** Settles a run on concrete answers by evaluating its outcome. *)
Ltac run_it := apply run_eq; vm_compute; reflexivity.

(** C1 (the code loses the coordinate): the SPARQL answer for Null Island
    has latitude "0.0" and longitude "0.0", both read by float as zero;
    geocode returns (None, None) because of [float(x) or None], and the
    occurrence is absent from the coordinate list of fetch_and_map. *)
Theorem geocode_zero_coordinate_is_lost :
  float_of_str "0.0" = Some {| dec_mant := 0; dec_scale := 1 |}
  ∧ fst (geocode net_Null_Island (Some uri_Null_Island) empty0) = Ret (None, None)
  ∧ outcome_map fst (fst (fetch_and_map net_Null_Island ["Null Island"] empty0))
    = Ret [].
Proof. repeat split; vm_compute; reflexivity. Qed.

(** C2 (counterexample): Paris resolves, the SPARQL request about Lyon
    fails; fetch_and_map and count_table on the batch Paris, Lyon both
    raise the failure instead of returning outputs with Paris in them. *)
Lemma mixed_batch_raises :
  fst (resolution net_Lyon_down "Paris" empty0) = Ret (Some lat_Paris, Some long_Paris)
  ∧ fst (resolution net_Lyon_down "Lyon" empty0) = Raise RequestException
  ∧ fst (fetch_and_map net_Lyon_down ["Paris"; "Lyon"] empty0) = Raise RequestException
  ∧ fst (count_table net_Lyon_down ["Paris"; "Lyon"] empty0) = Raise RequestException.
Proof. repeat split; vm_compute; reflexivity. Qed.

(** The batch Paris, Lyon, Paris when the SPARQL request about Lyon
    fails: Paris resolves, Lyon raises, and so does the callback. *)
Lemma failure_aborts_batch_witness :
  let s1 := state_after (mapM (resolution net_Lyon_down) ["Paris"]) empty0 in
  let s2 := state_after (resolution net_Lyon_down "Lyon") s1 in
  mapM (resolution net_Lyon_down) ["Paris"] empty0
    = (Ret [(Some lat_Paris, Some long_Paris)], s1)
  ∧ resolution net_Lyon_down "Lyon" s1 = (Raise RequestException, s2)
  ∧ fetch_and_map net_Lyon_down ["Paris"; "Lyon"; "Paris"] empty0
    = (Raise RequestException, s2).
Proof.
  intros s1 s2.
  assert (H1 : mapM (resolution net_Lyon_down) ["Paris"] empty0
               = (Ret [(Some lat_Paris, Some long_Paris)], s1)) by run_it.
  assert (H2 : resolution net_Lyon_down "Lyon" s1 = (Raise RequestException, s2))
    by run_it.
  split; [exact H1|]. split; [exact H2|].
  exact (proj1 (failure_aborts_batch net_Lyon_down)
           ["Paris"] "Lyon" ["Paris"] empty0 _ s1 RequestException s2 H1 H2).
Defined.

(** C3 (the code keeps the row): Paris has an entity reference and the
    SPARQL answer has no binding, so its coordinate is (None, None); the
    row is in the table that count_table returns, because dropna does not
    see a tuple as a missing value. *)
Theorem count_table_keeps_row_without_coordinate :
  fst (geocode net_no_coordinates (Some uri_Paris) empty0) = Ret (None, None)
  ∧ fst (count_table net_no_coordinates ["Paris"] empty0)
    = Ret [ {| index := "Paris"; occs := 1; db_pedia := Some uri_Paris;
               coordinates := (None, None) |} ].
Proof. repeat split; vm_compute; reflexivity. Qed.

(** C4 (the code geocodes the absent reference): for the occurrences
    Atlantide, unknown to the lookup service, resolution returns
    (None, None) with the lookup request alone, and the coordinate list and
    the table are empty, but count_table has called geocode(None): the log
    ends with the SPARQL request about <None>; and when that request
    fails, fetch_and_map raises instead of returning the empty outputs. *)
Theorem count_table_geocodes_absent_reference :
  fst (resolution net_Paris_Lyon "Atlantide" empty0) = Ret (None, None)
  ∧ requests (state_after (mapM (resolution net_Paris_Lyon) ["Atlantide"]) empty0)
    = [GET (lookup_url "Atlantide")]
  ∧ fst (fetch_and_map net_Paris_Lyon ["Atlantide"] empty0) = Ret ([], [])
  ∧ requests (state_after (fetch_and_map net_Paris_Lyon ["Atlantide"]) empty0)
    = [GET (lookup_url "Atlantide"); POST sparql_url (sparql_query None)]
  ∧ fst (fetch_and_map net_sparql_down ["Atlantide"] empty0) = Raise RequestException.
Proof. repeat split; vm_compute; reflexivity. Qed.

(** C5 (the code raises): the first binding of the SPARQL answer has a
    latitude and no longitude; geocode raises TypeError, from float(None),
    instead of returning (None, None). *)
Theorem geocode_missing_longitude_raises :
  get_value {[ "lat" := literal "48.856578" ]} "long" = None
  ∧ fst (geocode net_lat_only (Some uri_Paris) empty0) = Raise TypeError.
Proof. repeat split; vm_compute; reflexivity. Qed.

(** C6 (counterexample): the first document for Paris has the empty
    string as resource; dbpedia_top1 returns it, resolution returns
    (None, None) and only the lookup request was issued, while geocode of
    that reference, in the state dbpedia_top1 left, returns coordinates. *)
Lemma resolution_skips_empty_reference :
  fst (dbpedia_top1 net_empty_resource "Paris" empty0) = Ret (Some EmptyString)
  ∧ fst (resolution net_empty_resource "Paris" empty0) = Ret (None, None)
  ∧ requests (state_after (resolution net_empty_resource "Paris") empty0)
    = [GET (lookup_url "Paris")]
  ∧ fst (geocode net_empty_resource (Some EmptyString)
           (state_after (dbpedia_top1 net_empty_resource "Paris") empty0))
    = Ret (Some lat_Paris, Some long_Paris).
Proof. repeat split; vm_compute; reflexivity. Qed.

(** Paris, known as a non-empty reference: resolution is geocode of it. *)
Lemma resolution_top1_then_geocode_witness :
  let s1 := state_after (dbpedia_top1 net_Paris_Lyon "Paris") empty0 in
  dbpedia_top1 net_Paris_Lyon "Paris" empty0 = (Ret (Some uri_Paris), s1)
  ∧ uri_Paris ≠ EmptyString
  ∧ resolution net_Paris_Lyon "Paris" empty0 = geocode net_Paris_Lyon (Some uri_Paris) s1.
Proof.
  intros s1.
  assert (H1 : dbpedia_top1 net_Paris_Lyon "Paris" empty0 = (Ret (Some uri_Paris), s1))
    by run_it.
  assert (H2 : uri_Paris ≠ EmptyString) by discriminate.
  split; [exact H1|]. split; [exact H2|].
  exact (proj2 (proj2 (resolution_top1_then_geocode net_Paris_Lyon "Paris" empty0))
           uri_Paris s1 H1 H2).
Defined.

(** The occurrences Paris, Paris, Lyon, Paris, Lyon when both are known
    and located. *)
Lemma count_table_sorted_by_occs_desc_witness :
  let s1 := state_after (dbpedia_top1 net_Paris_Lyon "Paris") empty0 in
  let s2 := state_after (geocode net_Paris_Lyon (Some uri_Paris)) s1 in
  let s3 := state_after (dbpedia_top1 net_Paris_Lyon "Lyon") s2 in
  let s4 := state_after (geocode net_Paris_Lyon (Some uri_Lyon)) s3 in
  dbpedia_top1 net_Paris_Lyon "Paris" empty0 = (Ret (Some uri_Paris), s1)
  ∧ geocode net_Paris_Lyon (Some uri_Paris) s1 = (Ret (Some lat_Paris, Some long_Paris), s2)
  ∧ dbpedia_top1 net_Paris_Lyon "Lyon" s2 = (Ret (Some uri_Lyon), s3)
  ∧ geocode net_Paris_Lyon (Some uri_Lyon) s3 = (Ret (Some lat_Lyon, Some long_Lyon), s4)
  ∧ count_table net_Paris_Lyon ["Paris"; "Paris"; "Lyon"; "Paris"; "Lyon"] empty0
    = (Ret [row_Paris; row_Lyon], s4).
Proof.
  intros s1 s2 s3 s4.
  assert (H1 : dbpedia_top1 net_Paris_Lyon "Paris" empty0 = (Ret (Some uri_Paris), s1))
    by run_it.
  assert (H2 : geocode net_Paris_Lyon (Some uri_Paris) s1
               = (Ret (Some lat_Paris, Some long_Paris), s2)) by run_it.
  assert (H3 : dbpedia_top1 net_Paris_Lyon "Lyon" s2 = (Ret (Some uri_Lyon), s3))
    by run_it.
  assert (H4 : geocode net_Paris_Lyon (Some uri_Lyon) s3
               = (Ret (Some lat_Lyon, Some long_Lyon), s4)) by run_it.
  split; [exact H1|]. split; [exact H2|]. split; [exact H3|]. split; [exact H4|].
  exact (proj2 (count_table_sorted_by_occs_desc net_Paris_Lyon)
           empty0 _ s1 _ s2 _ s3 _ s4 H1 H2 H3 H4).
Defined.

(** C8 (counterexample): the lookup service is down; two calls of
    dbpedia_lookup with the key Paris both raise and both issue the GET
    request. *)
Lemma failed_lookup_is_requested_again :
  let s1 := state_after (dbpedia_lookup net_lookup_down "Paris") empty0 in
  let s2 := state_after (dbpedia_lookup net_lookup_down "Paris") s1 in
  fst (dbpedia_lookup net_lookup_down "Paris" empty0) = Raise RequestException
  ∧ fst (dbpedia_lookup net_lookup_down "Paris" s1) = Raise RequestException
  ∧ requests s2 = [GET (lookup_url "Paris"); GET (lookup_url "Paris")].
Proof. repeat split; vm_compute; reflexivity. Qed.

(** geocode of Paris, then the resolution of Lyon, then geocode of Paris
    again: the same value, and the state is left as it was.  And the
    lookup of Paris when the lookup service is down: the next call issues
    the GET request again. *)
Lemma cached_value_is_replayed_witness :
  let s1 := state_after (geocode net_Paris_Lyon (Some uri_Paris)) empty0 in
  let s2 := state_after (resolution net_Paris_Lyon "Lyon") s1 in
  let d1 := state_after (dbpedia_lookup net_lookup_down "Paris") empty0 in
  (geocode net_Paris_Lyon (Some uri_Paris) empty0 = (Ret (Some lat_Paris, Some long_Paris), s1)
   ∧ extends s1 s2
   ∧ geocode net_Paris_Lyon (Some uri_Paris) s2 = (Ret (Some lat_Paris, Some long_Paris), s2))
  ∧ (dbpedia_lookup net_lookup_down "Paris" empty0 = (Raise RequestException, d1)
     ∧ lookup_cache d1 !! "Paris" = None
     ∧ requests (snd (dbpedia_lookup net_lookup_down "Paris" d1))
       = (requests d1 ++ [GET (lookup_url "Paris")])%list).
Proof.
  intros s1 s2 d1.
  assert (H1 : geocode net_Paris_Lyon (Some uri_Paris) empty0
               = (Ret (Some lat_Paris, Some long_Paris), s1)) by run_it.
  assert (H2 : extends s1 s2).
  { apply (resolution_extends net_Paris_Lyon "Lyon" s1
             (fst (resolution net_Paris_Lyon "Lyon" s1))).
    apply surjective_pairing. }
  assert (H3 : dbpedia_lookup net_lookup_down "Paris" empty0 = (Raise RequestException, d1))
    by run_it.
  destruct (cached_value_is_replayed net_Paris_Lyon) as (_ & _ & Hgeo & _).
  destruct (cached_value_is_replayed net_lookup_down) as (_ & _ & _ & Hfail & _).
  split.
  - exact (conj H1 (conj H2 (Hgeo (Some uri_Paris) empty0 _ s1 s2 H1 H2))).
  - exact (conj H3 (Hfail "Paris" empty0 RequestException d1 H3)).
Defined.

(** C9 (counterexample): the latitude of the first binding is "n/a",
    which float cannot read; geocode raises ValueError. *)
Lemma geocode_malformed_latitude_raises :
  float_of_str "n/a" = None
  ∧ fst (geocode net_malformed (Some uri_Paris) empty0) = Raise ValueError.
Proof. repeat split; vm_compute; reflexivity. Qed.

(** The answer whose latitude is "n/a", from the empty state. *)
Lemma geocode_malformed_raises_ValueError_witness :
  geocode_cache empty0 !! Some uri_Paris = None
  ∧ sparql_service net_malformed (requests empty0) (sparql_query (Some uri_Paris))
    = Some (bindings_of [lat_long "n/a" "2.351828"])
  ∧ get_bindings (bindings_of [lat_long "n/a" "2.351828"]) = [lat_long "n/a" "2.351828"]
  ∧ get_value (lat_long "n/a" "2.351828") "lat" = Some "n/a"
  ∧ get_value (lat_long "n/a" "2.351828") "long" = Some "2.351828"
  ∧ (float_of_str "n/a" = None ∨ float_of_str "2.351828" = None)
  ∧ geocode net_malformed (Some uri_Paris) empty0
    = (Raise ValueError,
       log_request (POST sparql_url (sparql_query (Some uri_Paris))) empty0).
Proof.
  assert (H1 : geocode_cache empty0 !! Some uri_Paris = None) by reflexivity.
  assert (H2 : sparql_service net_malformed (requests empty0) (sparql_query (Some uri_Paris))
               = Some (bindings_of [lat_long "n/a" "2.351828"])) by reflexivity.
  assert (H3 : get_bindings (bindings_of [lat_long "n/a" "2.351828"])
               = [lat_long "n/a" "2.351828"]) by reflexivity.
  assert (H4 : get_value (lat_long "n/a" "2.351828") "lat" = Some "n/a")
    by (vm_compute; reflexivity).
  assert (H5 : get_value (lat_long "n/a" "2.351828") "long" = Some "2.351828")
    by (vm_compute; reflexivity).
  assert (H6 : float_of_str "n/a" = None ∨ float_of_str "2.351828" = None)
    by (left; reflexivity).
  repeat (split; [assumption|]).
  exact (geocode_malformed_raises_ValueError net_malformed (Some uri_Paris) empty0
           _ _ [] "n/a" "2.351828" H1 H2 H3 H4 H5 H6).
Defined.

(** A lookup answer whose only document has a label and no resource. *)
Lemma dbpedia_top1_needs_resource_witness :
  let s1 := state_after (dbpedia_lookup net_no_resource "Paris") empty0 in
  top1_cache empty0 !! "Paris" = None
  ∧ dbpedia_lookup net_no_resource "Paris" empty0 = (Ret [ {[ "label" := ["Paris"] ]} ], s1)
  ∧ ({[ "label" := ["Paris"] ]} : doc) !! "resource" = None
  ∧ dbpedia_top1 net_no_resource "Paris" empty0 = (Raise TypeError, s1).
Proof.
  intros s1.
  assert (H1 : top1_cache empty0 !! "Paris" = None) by reflexivity.
  assert (H2 : dbpedia_lookup net_no_resource "Paris" empty0
               = (Ret [ {[ "label" := ["Paris"] ]} ], s1)) by run_it.
  assert (H3 : ({[ "label" := ["Paris"] ]} : doc) !! "resource" = None)
    by (vm_compute; reflexivity).
  split; [exact H1|]. split; [exact H2|]. split; [exact H3|].
  exact (proj1 (dbpedia_top1_needs_resource net_no_resource "Paris" empty0 _ [] s1 H1 H2) H3).
Defined.

(* --------------------------------------------------------------------- *)
(* The further properties on concrete answers                               *)
(* --------------------------------------------------------------------- *)

(** Paris is counted three times in Paris, Paris, Lyon, Paris, Lyon. *)
Lemma Counter_counts_witness :
  ("Paris", 3) ∈ Counter occurrences_Paris_Lyon ∧ (1 ≤ 3)%nat.
Proof.
  assert (H1 : ("Paris", 3) ∈ Counter occurrences_Paris_Lyon)
    by (vm_compute; apply list_elem_of_here).
  destruct (Counter_counts occurrences_Paris_Lyon) as (_ & _ & Hpos & _).
  exact (conj H1 (Hpos "Paris" 3 H1)).
Defined.

(** The first resolution of Paris: a lookup request and a SPARQL request. *)
Lemma requests_per_call_witness :
  let s1 := state_after (resolution net_Paris_Lyon "Paris") empty0 in
  resolution net_Paris_Lyon "Paris" empty0 = (Ret coord_Paris, s1)
  ∧ (requests_between empty0 s1 ≤ 2)%nat.
Proof.
  intros s1.
  assert (H1 : resolution net_Paris_Lyon "Paris" empty0 = (Ret coord_Paris, s1)) by run_it.
  destruct (requests_per_call net_Paris_Lyon) as (_ & _ & _ & Hres).
  exact (conj H1 (Hres "Paris" empty0 _ s1 H1)).
Defined.

(** The lookup of Paris when the lookup service is down. *)
Lemma raise_stores_nothing_witness :
  let s1 := state_after (dbpedia_lookup net_lookup_down "Paris") empty0 in
  dbpedia_lookup net_lookup_down "Paris" empty0 = (Raise RequestException, s1)
  ∧ lookup_cache s1 = lookup_cache empty0 ∧ top1_cache s1 = top1_cache empty0
  ∧ geocode_cache s1 = geocode_cache empty0 ∧ lookup_cache s1 !! "Paris" = None.
Proof.
  intros s1.
  assert (H1 : dbpedia_lookup net_lookup_down "Paris" empty0 = (Raise RequestException, s1))
    by run_it.
  destruct (raise_stores_nothing net_lookup_down) as (Hl & _ & _).
  exact (conj H1 (Hl "Paris" empty0 RequestException s1 H1)).
Defined.

(** The callback on Paris, Paris, Lyon, Paris, Lyon, and then again. *)
Lemma fetch_and_map_replay_witness :
  let out := ([coord_Paris; coord_Paris; coord_Lyon; coord_Paris; coord_Lyon],
              [row_Paris; row_Lyon]) in
  let s1 := state_after (fetch_and_map net_Paris_Lyon occurrences_Paris_Lyon) empty0 in
  fetch_and_map net_Paris_Lyon occurrences_Paris_Lyon empty0 = (Ret out, s1)
  ∧ extends s1 s1
  ∧ fetch_and_map net_Paris_Lyon occurrences_Paris_Lyon s1 = (Ret out, s1).
Proof.
  intros out s1.
  assert (H1 : fetch_and_map net_Paris_Lyon occurrences_Paris_Lyon empty0 = (Ret out, s1))
    by run_it.
  assert (H2 : extends s1 s1) by apply extends_refl.
  exact (conj H1 (conj H2
           (fetch_and_map_replay net_Paris_Lyon occurrences_Paris_Lyon empty0 out s1 s1 H1 H2))).
Defined.


(** A document whose only entity is a person. *)
Lemma fetch_and_map_no_location_witness :
  (∀ e, e ∈ ents_no_location → label_ e ≠ "LOC")
  ∧ fetch_and_map net_Paris_Lyon (loc_of_ents ents_no_location) empty0
    = (Ret ([], []), empty0).
Proof.
  assert (H1 : ∀ e, e ∈ ents_no_location → label_ e ≠ "LOC").
  { intros e [->|Hin]%elem_of_cons; [discriminate|]. by apply elem_of_nil in Hin. }
  exact (conj H1 (fetch_and_map_no_location net_Paris_Lyon ents_no_location empty0 H1)).
Defined.

(** The table of Paris, Paris, Lyon, Paris, Lyon. *)
Lemma count_table_rows_witness :
  let s1 := state_after (count_table net_Paris_Lyon occurrences_Paris_Lyon) empty0 in
  count_table net_Paris_Lyon occurrences_Paris_Lyon empty0 = (Ret [row_Paris; row_Lyon], s1)
  ∧ NoDup (index <$> [row_Paris; row_Lyon])
  ∧ (length [row_Paris; row_Lyon] ≤ length occurrences_Paris_Lyon)%nat.
Proof.
  intros s1.
  assert (H1 : count_table net_Paris_Lyon occurrences_Paris_Lyon empty0
               = (Ret [row_Paris; row_Lyon], s1)) by run_it.
  destruct (count_table_rows net_Paris_Lyon _ _ _ _ H1) as (HND & Hlen & _).
  exact (conj H1 (conj HND Hlen)).
Defined.

(** An answer of the lookup service without "docs". *)
Lemma dbpedia_top1_without_docs_witness :
  top1_cache empty0 !! "Paris" = None ∧ lookup_cache empty0 !! "Paris" = None
  ∧ lookup_service net_no_keys (requests empty0) (lookup_url "Paris")
    = Some {| docs := None |}
  ∧ (docs {| docs := None |} = None ∨ docs {| docs := None |} = Some [])
  ∧ dbpedia_top1 net_no_keys "Paris" empty0
    = (Ret None,
       store_top1 "Paris" None
         (store_lookup "Paris" [] (log_request (GET (lookup_url "Paris")) empty0))).
Proof.
  assert (H1 : top1_cache empty0 !! "Paris" = None) by reflexivity.
  assert (H2 : lookup_cache empty0 !! "Paris" = None) by reflexivity.
  assert (H3 : lookup_service net_no_keys (requests empty0) (lookup_url "Paris")
               = Some {| docs := None |}) by reflexivity.
  assert (H4 : docs {| docs := None |} = None ∨ docs {| docs := None |} = Some [])
    by (left; reflexivity).
  exact (conj H1 (conj H2 (conj H3 (conj H4
           (dbpedia_top1_without_docs net_no_keys "Paris" empty0 _ H1 H2 H3 H4))))).
Defined.

(** An answer of the SPARQL service without "results". *)
Lemma geocode_without_bindings_witness :
  geocode_cache empty0 !! Some uri_Paris = None
  ∧ sparql_service net_no_keys (requests empty0) (sparql_query (Some uri_Paris))
    = Some {| results := None |}
  ∧ geocode net_no_keys (Some uri_Paris) empty0
    = (Ret (None, None),
       store_geocode (Some uri_Paris) (None, None)
         (log_request (POST sparql_url (sparql_query (Some uri_Paris))) empty0)).
Proof.
  assert (H1 : geocode_cache empty0 !! Some uri_Paris = None) by reflexivity.
  assert (H2 : sparql_service net_no_keys (requests empty0) (sparql_query (Some uri_Paris))
               = Some {| results := None |}) by reflexivity.
  exact (conj H1 (conj H2
           (geocode_without_bindings net_no_keys (Some uri_Paris) empty0 _ H1 H2
              (or_introl eq_refl)))).
Defined.

(** geocode of Null Island, whose coordinates are read as zero. *)
Lemma zero_is_never_returned_witness :
  let s1 := state_after (geocode net_Null_Island (Some uri_Null_Island)) empty0 in
  geocode_cache_nonzero empty0
  ∧ geocode net_Null_Island (Some uri_Null_Island) empty0 = (Ret (None, None), s1)
  ∧ nonzero_coord (float := decimal) (None, None).
Proof.
  intros s1.
  destruct (zero_is_never_returned net_Null_Island) as (H0 & _ & Hg & _).
  assert (H1 : geocode net_Null_Island (Some uri_Null_Island) empty0
               = (Ret (None, None), s1)) by run_it.
  exact (conj H0 (conj H1 (Hg (Some uri_Null_Island) empty0 (None, None) s1 H0 H1))).
Defined.

(** The callback on Paris, Paris, Lyon, Paris, Lyon from the empty state. *)
Lemma top1_cache_stays_coherent_witness :
  let run := fetch_and_map net_Paris_Lyon occurrences_Paris_Lyon empty0 in
  top1_cache_coherent empty0 ∧ top1_cache_coherent (snd run).
Proof.
  intros run.
  destruct (top1_cache_stays_coherent net_Paris_Lyon) as (H0 & _ & _ & _ & Hrun).
  exact (conj H0 (Hrun occurrences_Paris_Lyon empty0 (fst run) (snd run) H0
                    (surjective_pairing run))).
Defined.

(** The callback on Paris, Paris, Lyon, Paris, Lyon, with the SPARQL
    request about Lyon failing, from the state that the resolution of
    Paris left: the cached lookup, reference and coordinate of Paris are
    kept, and the log still starts with the two requests about Paris. *)
Lemma state_only_grows_witness :
  let s1 := state_after (resolution net_Lyon_down "Paris") empty0 in
  let run := fetch_and_map net_Lyon_down occurrences_Paris_Lyon s1 in
  requests s1 = [GET (lookup_url "Paris"); POST sparql_url (sparql_query (Some uri_Paris))]
  ∧ geocode_cache s1 !! Some uri_Paris = Some coord_Paris
  ∧ fst run = Raise RequestException
  ∧ extends s1 (snd run).
Proof.
  intros s1 run.
  assert (H1 : requests s1
               = [GET (lookup_url "Paris"); POST sparql_url (sparql_query (Some uri_Paris))])
    by (vm_compute; reflexivity).
  assert (H2 : geocode_cache s1 !! Some uri_Paris = Some coord_Paris)
    by (vm_compute; reflexivity).
  assert (H3 : fst run = Raise RequestException) by (vm_compute; reflexivity).
  destruct (state_only_grows net_Lyon_down) as (_ & _ & _ & _ & _ & Hrun).
  exact (conj H1 (conj H2 (conj H3
           (Hrun occurrences_Paris_Lyon s1 (fst run) (snd run) (surjective_pairing run))))).
Defined.

(** The default url of the form. *)
Lemma texteBrut_url_normalises_witness :
  endswith url_Gallica ".texteBrut" = false
  ∧ texteBrut_url url_Gallica = url_Gallica +:+ ".texteBrut".
Proof.
  assert (H1 : endswith url_Gallica ".texteBrut" = false) by (vm_compute; reflexivity).
  destruct (texteBrut_url_normalises url_Gallica) as (_ & _ & Happ & _).
  exact (conj H1 (Happ H1)).
Defined.

(** Two toponyms with one lookup url. *)
Lemma requests_identify_keys_witness :
  lookup_url ("Par" +:+ "is") = lookup_url "Paris" ∧ "Par" +:+ "is" = "Paris".
Proof.
  assert (H1 : lookup_url ("Par" +:+ "is") = lookup_url "Paris") by reflexivity.
  destruct requests_identify_keys as (Hl & _).
  exact (conj H1 (Hl _ _ H1)).
Defined.

(** The page with its header, the rule and its body. *)
Lemma gallica_text_after_first_hr_witness :
  (∀ t', t' ∈ page_header → tag_name t' ≠ "hr") ∧ tag_name page_rule = "hr"
  ∧ gallica_text (page_header ++ page_rule :: page_body)%list
    = Ret (paragraphs_text page_body).
Proof.
  assert (H1 : ∀ t', t' ∈ page_header → tag_name t' ≠ "hr").
  { intros t' [->|[->|Hin]%elem_of_cons]%elem_of_cons; [discriminate..|].
    by apply elem_of_nil in Hin. }
  assert (H2 : tag_name page_rule = "hr") by reflexivity.
  destruct gallica_text_after_first_hr as (_ & Hafter & _).
  exact (conj H1 (conj H2 (Hafter page_header page_rule page_body H1 H2))).
Defined.

(** The default url of the form, fetched from an empty cache, then again,
    then with ".texteBrut" added. *)
Lemma fetch_gallica_lru_cache_witness :
  let text := paragraphs_text page_body in
  let g1 := snd (fetch_gallica page_service_Gallica url_Gallica gallica0) in
  fetch_gallica page_service_Gallica url_Gallica gallica0 = (Ret text, g1)
  ∧ fetch_gallica page_service_Gallica url_Gallica g1 = (Ret text, g1)
  ∧ endswith url_Gallica ".texteBrut" = false
  ∧ lru_get (url_Gallica +:+ ".texteBrut") (gallica_cache gallica0) = None
  ∧ requests (process (snd (fetch_gallica page_service_Gallica
                              (url_Gallica +:+ ".texteBrut") g1)))
    = (requests (process g1) ++ [GET (url_Gallica +:+ ".texteBrut")])%list.
Proof.
  intros text g1.
  assert (H1 : fetch_gallica page_service_Gallica url_Gallica gallica0 = (Ret text, g1)).
  { rewrite (surjective_pairing (fetch_gallica page_service_Gallica url_Gallica gallica0)).
    f_equal. }
  assert (H2 : endswith url_Gallica ".texteBrut" = false) by (vm_compute; reflexivity).
  assert (H3 : lru_get (url_Gallica +:+ ".texteBrut") (gallica_cache gallica0) = None)
    by reflexivity.
  destruct (fetch_gallica_lru_cache page_service_Gallica url_Gallica gallica0 _ g1 H1)
    as (_ & _ & _ & _ & Hreplay & Hkey).
  exact (conj (H1) (conj (Hreplay text eq_refl) (conj H2 (conj H3 (Hkey text eq_refl H2 H3))))).
Defined.
